(** * The field hook of the form library (hook_form_lib/hooks/use_field.ts)

    A shallow embedding of [useField] and a verification of its documented
    behaviour: validator sequencing and [exitOnFail], staleness of
    overlapping validation runs, formatters, the pristine flag, and the
    filtering and reading of the error list.

    The hook is modelled as a state machine.  Its state is the React state
    and the refs of the hook; an event is a call of one of the operations of
    the field object, the resolution of the promise of an asynchronous
    validation, or the expiry of a timer; state updates take effect in the
    order they are issued.  Validators and formatters are functions of their
    argument alone: a validator does not call back into the field, and does
    not modify the error array it is passed. *)

From Stdlib Require Import List NArith ZArith Bool String Ascii Lia DecimalString.
From Stdlib Require Import Sorted.
Import ListNotations.

Set Warnings "-register-all".

(** ** JavaScript values *)

Module JS.

(** A JavaScript string is a sequence of UTF-16 code units. *)
Definition jsstring := list N.

Definition lit (s : string) : jsstring :=
  map N_of_ascii (list_ascii_of_string s).

Fixpoint jsstring_eqb (a b : jsstring) : bool :=
  match a, b with
  | [], [] => true
  | x :: a', y :: b' => N.eqb x y && jsstring_eqb a' b'
  | _, _ => false
  end.

(** The values the hook handles.  Numbers are only ever tested for
    truthiness here, so they are kept as integers plus NaN; functions are
    not values of this type: the places where the source accepts a function
    (a message, a default value) are tagged variants below.  An object is its
    list of own enumerable properties, in insertion order. *)
Inductive jsval :=
| JUndefined
| JNull
| JBool (b : bool)
| JNum (z : Z)
| JNaN
| JStr (s : jsstring)
| JObj (props : list (jsstring * jsval)).

Definition object := list (jsstring * jsval).

(** ToBoolean. *)
Definition truthy (v : jsval) : bool :=
  match v with
  | JUndefined | JNull | JNaN => false
  | JBool b => b
  | JNum z => negb (Z.eqb z 0)
  | JStr s => match s with [] => false | _ => true end
  | JObj _ => true
  end.

(** [v === s] for a string [s]. *)
Definition strict_eq_string (v : jsval) (s : jsstring) : bool :=
  match v with
  | JStr s' => jsstring_eqb s' s
  | _ => false
  end.

(** Own property lookup, [{}.hasOwnProperty.call(o, k)] and [o.k]. *)
Fixpoint lookup (k : jsstring) (o : object) : option jsval :=
  match o with
  | [] => None
  | (k', v) :: o' => if jsstring_eqb k' k then Some v else lookup k o'
  end.

Definition hasOwnProperty (o : object) (k : jsstring) : bool :=
  match lookup k o with Some _ => true | None => false end.

Definition get (o : object) (k : jsstring) : jsval :=
  match lookup k o with Some v => v | None => JUndefined end.

(** [{ ...o, k: v }]: an existing key keeps its position, a new key goes
    last. *)
Fixpoint set_prop (k : jsstring) (v : jsval) (o : object) : object :=
  match o with
  | [] => [(k, v)]
  | (k', v') :: o' =>
      if jsstring_eqb k' k then (k', v) :: o' else (k', v') :: set_prop k v o'
  end.

Definition index_key (i : nat) : jsstring :=
  lit (NilEmpty.string_of_uint (Nat.to_uint i)).

Fixpoint string_props (i : nat) (s : jsstring) : object :=
  match s with
  | [] => []
  | c :: s' => (index_key i, JStr [c]) :: string_props (S i) s'
  end.

(** The own enumerable properties copied by [{ ...v }]: those of an object,
    the indexed characters of a string, none for the other primitives. *)
Definition spread (v : jsval) : object :=
  match v with
  | JObj props => props
  | JStr s => string_props 0 s
  | _ => []
  end.

(** [v.k] on a value that is neither null nor undefined: primitives have no
    own data property of the names read here. *)
Definition get_member (v : jsval) (k : jsstring) : jsval :=
  match v with
  | JObj props => get props k
  | _ => JUndefined
  end.

(** WhiteSpace and LineTerminator code units, as stripped by
    [String.prototype.trim]. *)
Definition is_whitespace (c : N) : bool :=
  ((9 <=? c) && (c <=? 13) || (c =? 32) || (c =? 160) || (c =? 5760)
   || (8192 <=? c) && (c <=? 8202) || (c =? 8232) || (c =? 8233)
   || (c =? 8239) || (c =? 8287) || (c =? 12288) || (c =? 65279))%N.

Fixpoint trimStart (s : jsstring) : jsstring :=
  match s with
  | [] => []
  | c :: s' => if is_whitespace c then trimStart s' else s
  end.

Definition trimEnd (s : jsstring) : jsstring := rev (trimStart (rev s)).

Definition trim (s : jsstring) : jsstring := trimEnd (trimStart s).

(** [l.join(sep)] on an array of strings. *)
Fixpoint join (sep : jsstring) (l : list jsstring) : jsstring :=
  match l with
  | [] => []
  | [s] => s
  | s :: l' => s ++ sep ++ join sep l'
  end.

End JS.
Import JS.

(** ** Constants *)

(** Modelled from the spec: the modules [../constants] and [../lib] are
    imported by the hook but are not among the sources.  The validation types
    and field kinds carry the names the specification gives them; the
    to-integer formatter [toInt] of [../lib] is a parameter of the
    definitions that use it. *)
Definition VALIDATION_TYPES_FIELD : jsstring := lit "field".
Definition VALIDATION_TYPES_ASYNC : jsstring := lit "async".
Definition VALIDATION_TYPES_ARRAY_ITEM : jsstring := lit "array-item".
Definition FIELD_TYPES_TEXT : jsstring := lit "text".
Definition FIELD_TYPES_NUMBER : jsstring := lit "number".

Definition key_message : jsstring := lit "message".
Definition key_validationType : jsstring := lit "validationType".
Definition key_checked : jsstring := lit "checked".
Definition key_value : jsstring := lit "value".

(** ** Configuration *)

(** What a validator call does: it returns a value (for an asynchronous
    validator, the value its promise resolves with) or throws one (or its
    promise rejects with one).  A validator is a function of its argument
    object alone. *)
Inductive outcome :=
| Returns (validationResult : jsval)
| Throws (error : jsval).

Record ValidatorArgs := {
  arg_value : jsval;
  arg_errors : list object;
  arg_formData : jsval;
  arg_path : jsstring
}.

(** [validation.message] is a literal or a function of the failure. *)
Inductive message_config :=
| MessageLiteral (m : jsval)
| MessageFunction (f : jsval -> jsval).

Record ValidationConfig := {
  validator : ValidatorArgs -> outcome;
  exitOnFail : option bool;
  type : option jsstring;
  message : option message_config
}.

Inductive default_value :=
| DefaultLiteral (v : jsval)
| DefaultProducer (f : unit -> jsval).

(** The part of [FieldConfig] the operations below read ([label] and
    [helpText] are passed through to the field object unchanged).  A list
    that is absent in the configuration is the empty list; [config_type] is
    the [type] entry of the configuration. *)
Record FieldConfig := {
  defaultValue : option default_value;
  config_type : option jsstring;
  validations : list ValidationConfig;
  formatters : list (jsval -> jsval);
  isValidationAsync : bool;
  serializer : option (jsval -> jsval);
  deSerializer : option (jsval -> jsval)
}.

Definition field_type (config : FieldConfig) : jsstring :=
  match config_type config with Some t => t | None => FIELD_TYPES_TEXT end.

Definition apply_serializer (config : FieldConfig) (v : jsval) : jsval :=
  match serializer config with Some f => f v | None => v end.

Definition apply_deSerializer (config : FieldConfig) (v : jsval) : jsval :=
  match deSerializer config with Some f => f v | None => v end.


(** ** Helpers of the hook *)

Definition getValidationErrorWithMessage
    (validation : ValidationConfig) (validationResult : jsval) : object :=
  let message :=
    match message validation with
    | Some m => m
    | None => MessageLiteral (get_member validationResult key_message)
    end in
  set_prop key_message
    (match message with
     | MessageFunction f => f validationResult
     | MessageLiteral m => m
     end)
    (spread validationResult).

Definition setDefaultFormatter (toInt : jsval -> jsval) (type : jsstring)
    (formatters : list (jsval -> jsval)) : list (jsval -> jsval) :=
  if (0 <? List.length formatters)%nat then formatters
  else if jsstring_eqb type FIELD_TYPES_NUMBER then formatters ++ [toInt]
  else formatters.

(** The second argument of [filterErrors]: one type or an array of types. *)
Inductive type_filter :=
| OneType (t : jsstring)
| ManyTypes (ts : list jsstring).

Definition filterErrors (_errors : list object)
    (validationTypeToFilterOut : option type_filter) : list object :=
  let validationTypeToArray :=
    match validationTypeToFilterOut with
    | None => [VALIDATION_TYPES_FIELD]
    | Some (OneType t) => [t]
    | Some (ManyTypes ts) => ts
    end in
  filter
    (fun error =>
       forallb
         (fun _type => negb (strict_eq_string (get error key_validationType) _type))
         validationTypeToArray)
    _errors.

Definition isEmptyString (input : jsval) : bool :=
  match input with
  | JStr s => jsstring_eqb (trim s) []
  | _ => false
  end.

Definition runFormatters (formatters : list (jsval -> jsval)) (input : jsval)
    : jsval :=
  if isEmptyString input then input
  else fold_left (fun output formatter => formatter output) formatters input.

(** ** Running the validators *)

(** The locals of one run of [validateSync] / [validateAsync]: the error
    array being built and the [skip] flag.  [visited] and [invoked] are ghost
    state, absent from the source: the number of validations the loop has
    gone through, and the positions (from 0) of those whose validator was
    called, in call order. *)
Record run_state := {
  validationErrors : list object;
  skip : bool;
  visited : nat;
  invoked : list nat
}.

Definition run_start : run_state :=
  {| validationErrors := []; skip := false; visited := 0; invoked := [] |}.

Section Run.

Variable formData : jsval.
Variable valueToValidate : jsval.
Variable validationTypeToValidate : option jsstring.
Variable path : jsstring.

(** The second disjunct of the guard of [runValidation]: the call is
    restricted to a validation type and this validation has another one. *)
Definition out_of_scope (validation : ValidationConfig) : bool :=
  let validationType :=
    match type validation with
    | Some t => t
    | None => VALIDATION_TYPES_FIELD
    end in
  match validationTypeToValidate with
  | Some t => negb (jsstring_eqb validationType t)
  | None => false
  end.

(** The object a validator is called with. *)
Definition validator_args (validationErrors : list object) : ValidatorArgs :=
  {| arg_value := valueToValidate;
     arg_errors := validationErrors;
     arg_formData := formData;
     arg_path := path |}.

(** The closure [runValidation].  It yields the [validationResult] it
    returns ([undefined] on the early return), the value of [skip] after
    the call, and whether the validator was called.  The two copies in the
    source differ only by the [await] on the validator's result. *)
Definition runValidation (st : run_state) (validation : ValidationConfig)
    : jsval * bool * bool :=
  if skip st || out_of_scope validation then (JUndefined, skip st, false)
  else
    match validator validation (validator_args (validationErrors st)) with
    | Returns validationResult =>
        if truthy validationResult
           && negb (match exitOnFail validation with
                    | Some false => true
                    | _ => false
                    end)
        then (* thrown again and caught *) (validationResult, true, true)
        else (validationResult, skip st, true)
    | Throws error => (error, true, true)
    end.

(** [validation.type || VALIDATION_TYPES.FIELD] *)
Definition type_tag (validation : ValidationConfig) : jsstring :=
  match type validation with
  | Some (c :: t) => c :: t
  | _ => VALIDATION_TYPES_FIELD
  end.

Definition validation_error (validation : ValidationConfig)
    (validationResult : jsval) : object :=
  set_prop key_validationType (JStr (type_tag validation))
    (getValidationErrorWithMessage validation validationResult).

(** The body of the loop over [validations]. *)
Definition run_step (st : run_state) (validation : ValidationConfig)
    : run_state :=
  let '(validationResult, skip', called) := runValidation st validation in
  {| validationErrors :=
       if truthy validationResult
       then validationErrors st ++ [validation_error validation validationResult]
       else validationErrors st;
     skip := skip';
     visited := S (visited st);
     invoked := if called then invoked st ++ [visited st] else invoked st |}.

Definition run_validations (validations : list ValidationConfig) : run_state :=
  fold_left run_step validations run_start.

Definition validateSync (validations : list ValidationConfig) : list object :=
  validationErrors (run_validations validations).

End Run.

(** ** The state of a field *)

(** An asynchronous run that has been started and whose promise has not been
    resolved yet: the sequence number it captured, the validation type it
    was called with, and the errors its validators produce.  The value and
    the form data the validators see are fixed when the run starts, so these
    errors are known then; when the promise resolves, if it ever does, is up
    to the validators. *)
Record PendingRun := {
  validateIteration : nat;
  run_validationType : option jsstring;
  run_errors : list object
}.

(** The React state of the hook ([value] to [isUpdating]), its two refs
    ([validateCounter], [debounceTimeout]) and the part of the environment it
    talks to: the armed timers, the handle counter of [setTimeout], the
    promises of the runs in flight and the writes sent to the form with
    [__updateFormDataAt].  The counter is a natural number, without the
    upper limit of a JavaScript number. *)
Record FieldState := {
  value : jsval;
  errors : list object;
  isPristine : bool;
  isValidating : bool;
  isUpdating : bool;
  validateCounter : nat;
  debounceTimeout : option nat;
  armedTimers : list nat;
  timerHandles : nat;
  pendingRuns : list PendingRun;
  formWrites : list (jsstring * jsval)
}.

Definition setStateValue (v : jsval) (s : FieldState) : FieldState :=
  {| value := v; errors := errors s; isPristine := isPristine s;
     isValidating := isValidating s; isUpdating := isUpdating s;
     validateCounter := validateCounter s; debounceTimeout := debounceTimeout s;
     armedTimers := armedTimers s; timerHandles := timerHandles s;
     pendingRuns := pendingRuns s; formWrites := formWrites s |}.

Definition setErrors (f : list object -> list object) (s : FieldState)
    : FieldState :=
  {| value := value s; errors := f (errors s); isPristine := isPristine s;
     isValidating := isValidating s; isUpdating := isUpdating s;
     validateCounter := validateCounter s; debounceTimeout := debounceTimeout s;
     armedTimers := armedTimers s; timerHandles := timerHandles s;
     pendingRuns := pendingRuns s; formWrites := formWrites s |}.

Definition setPristine (b : bool) (s : FieldState) : FieldState :=
  {| value := value s; errors := errors s; isPristine := b;
     isValidating := isValidating s; isUpdating := isUpdating s;
     validateCounter := validateCounter s; debounceTimeout := debounceTimeout s;
     armedTimers := armedTimers s; timerHandles := timerHandles s;
     pendingRuns := pendingRuns s; formWrites := formWrites s |}.

Definition setValidating (b : bool) (s : FieldState) : FieldState :=
  {| value := value s; errors := errors s; isPristine := isPristine s;
     isValidating := b; isUpdating := isUpdating s;
     validateCounter := validateCounter s; debounceTimeout := debounceTimeout s;
     armedTimers := armedTimers s; timerHandles := timerHandles s;
     pendingRuns := pendingRuns s; formWrites := formWrites s |}.

Definition setIsUpdating (b : bool) (s : FieldState) : FieldState :=
  {| value := value s; errors := errors s; isPristine := isPristine s;
     isValidating := isValidating s; isUpdating := b;
     validateCounter := validateCounter s; debounceTimeout := debounceTimeout s;
     armedTimers := armedTimers s; timerHandles := timerHandles s;
     pendingRuns := pendingRuns s; formWrites := formWrites s |}.

Definition set_validateCounter (n : nat) (s : FieldState) : FieldState :=
  {| value := value s; errors := errors s; isPristine := isPristine s;
     isValidating := isValidating s; isUpdating := isUpdating s;
     validateCounter := n; debounceTimeout := debounceTimeout s;
     armedTimers := armedTimers s; timerHandles := timerHandles s;
     pendingRuns := pendingRuns s; formWrites := formWrites s |}.

Definition set_pendingRuns (l : list PendingRun) (s : FieldState) : FieldState :=
  {| value := value s; errors := errors s; isPristine := isPristine s;
     isValidating := isValidating s; isUpdating := isUpdating s;
     validateCounter := validateCounter s; debounceTimeout := debounceTimeout s;
     armedTimers := armedTimers s; timerHandles := timerHandles s;
     pendingRuns := l; formWrites := formWrites s |}.

Definition set_armedTimers (l : list nat) (s : FieldState) : FieldState :=
  {| value := value s; errors := errors s; isPristine := isPristine s;
     isValidating := isValidating s; isUpdating := isUpdating s;
     validateCounter := validateCounter s; debounceTimeout := debounceTimeout s;
     armedTimers := l; timerHandles := timerHandles s;
     pendingRuns := pendingRuns s; formWrites := formWrites s |}.

Definition clearTimeout (handle : nat) (s : FieldState) : FieldState :=
  set_armedTimers (filter (fun h => negb (h =? handle)%nat) (armedTimers s)) s.

(** [debounceTimeout.current = setTimeout(...)]: a fresh handle is armed and
    stored in the ref. *)
Definition setTimeout_debounce (s : FieldState) : FieldState :=
  let handle := S (timerHandles s) in
  {| value := value s; errors := errors s; isPristine := isPristine s;
     isValidating := isValidating s; isUpdating := isUpdating s;
     validateCounter := validateCounter s; debounceTimeout := Some handle;
     armedTimers := armedTimers s ++ [handle]; timerHandles := handle;
     pendingRuns := pendingRuns s; formWrites := formWrites s |}.

Definition updateFormDataAt (path : jsstring) (v : jsval) (s : FieldState)
    : FieldState :=
  {| value := value s; errors := errors s; isPristine := isPristine s;
     isValidating := isValidating s; isUpdating := isUpdating s;
     validateCounter := validateCounter s; debounceTimeout := debounceTimeout s;
     armedTimers := armedTimers s; timerHandles := timerHandles s;
     pendingRuns := pendingRuns s; formWrites := formWrites s ++ [(path, v)] |}.

(** ** The operations of the hook *)

(** The argument of [validate]; an absent entry takes its default. *)
Record ValidationData := {
  data_formData : option jsval;
  data_value : option jsval;
  data_validationType : option jsstring
}.

Record FieldValidateResponse := {
  isValid : bool;
  response_errors : list object
}.

Section Hook.

Variable toInt : jsval -> jsval.
Variable path : jsstring.
Variable config : FieldConfig.

(** [formatters] once [setDefaultFormatter()] has run, which it does in
    the body of the hook before any operation exists. *)
Definition hook_formatters : list (jsval -> jsval) :=
  setDefaultFormatter toInt (field_type config) (formatters config).

Definition initial_state : FieldState :=
  {| value :=
       apply_deSerializer config
         match defaultValue config with
         | None => JStr []
         | Some (DefaultLiteral v) => v
         | Some (DefaultProducer f) => f tt
         end;
     errors := [];
     isPristine := true;
     isValidating := false;
     isUpdating := false;
     validateCounter := 0;
     debounceTimeout := None;
     armedTimers := [];
     timerHandles := 0;
     pendingRuns := [];
     formWrites := [] |}.

Definition onValueChange (s : FieldState) : FieldState :=
  let s := if isPristine s then setPristine false s else s in
  let s := setIsUpdating true s in
  let s :=
    match debounceTimeout s with
    | Some handle => clearTimeout handle s
    | None => s
    end in
  setTimeout_debounce s.

Definition clearErrors (validationType : option type_filter)
    (s : FieldState) : FieldState :=
  let validationType :=
    match validationType with
    | Some t => t
    | None => OneType VALIDATION_TYPES_FIELD
    end in
  setErrors (fun previousErrors => filterErrors previousErrors (Some validationType)) s.

(** [validateAsync] up to its first [await] clears the field and async
    errors; the errors it resolves with are those of the sequential run. *)
Definition validateAsync (formData valueToValidate : jsval)
    (validationTypeToValidate : option jsstring) (s : FieldState)
    : FieldState * list object :=
  (clearErrors
     (Some (ManyTypes [VALIDATION_TYPES_FIELD; VALIDATION_TYPES_ASYNC])) s,
   validationErrors
     (run_validations formData valueToValidate validationTypeToValidate path
        (validations config))).

Definition onValidationResult (validateIteration : nat)
    (validationType : option jsstring) (validationErrors : list object)
    (s : FieldState) : FieldState * FieldValidateResponse :=
  (if (validateIteration =? validateCounter s)%nat
   then
     setErrors
       (fun previousErrors =>
          let filteredErrors :=
            filterErrors previousErrors (option_map OneType validationType) in
          filteredErrors ++ validationErrors)
       (setValidating false s)
   else s,
   {| isValid := (List.length validationErrors =? 0)%nat;
      response_errors := validationErrors |}).

(** [validate]: [formSnapshot] is what [form.__getFormData] answers.  In
    synchronous mode the response is returned; in asynchronous mode a
    promise is, whose resolution is the later [settle]. *)
Definition validate (formSnapshot : jsval) (validationData : ValidationData)
    (s : FieldState) : FieldState * option FieldValidateResponse :=
  let formData :=
    match data_formData validationData with
    | Some d => d
    | None => formSnapshot
    end in
  let valueToValidate :=
    match data_value validationData with
    | Some v => v
    | None => value s
    end in
  let validationType := data_validationType validationData in
  let s := setValidating true s in
  let validateIteration := S (validateCounter s) in
  let s := set_validateCounter validateIteration s in
  if isValidationAsync config then
    let '(s, validationErrors) :=
      validateAsync formData valueToValidate validationType s in
    (set_pendingRuns
       (pendingRuns s ++
        [{| validateIteration := validateIteration;
            run_validationType := validationType;
            run_errors := validationErrors |}]) s,
     None)
  else
    let validationErrors :=
      validateSync formData valueToValidate validationType path
        (validations config) in
    let '(s, response) :=
      onValidationResult validateIteration validationType validationErrors s in
    (s, Some response).

(** The promise of the run numbered [iteration] resolves:
    [.then(onValidationResult)]. *)
Definition settle (iteration : nat) (s : FieldState)
    : FieldState * option FieldValidateResponse :=
  match find (fun r => (validateIteration r =? iteration)%nat) (pendingRuns s) with
  | None => (s, None)
  | Some r =>
      let s :=
        set_pendingRuns
          (filter (fun r' => negb (validateIteration r' =? iteration)%nat)
             (pendingRuns s)) s in
      let '(s, response) :=
        onValidationResult (validateIteration r) (run_validationType r)
          (run_errors r) s in
      (s, Some response)
  end.

(** [rawValue = value]: an undefined argument is replaced by the value of
    the state the closure was created in. *)
Definition getOutputValue (rawValue : jsval) (s : FieldState) : jsval :=
  apply_serializer config
    match rawValue with
    | JUndefined => value s
    | _ => rawValue
    end.

Definition setValue (newValue : jsval) (s : FieldState) : FieldState :=
  let s' := onValueChange s in
  let formattedValue := runFormatters hook_formatters newValue in
  let s' := setStateValue formattedValue s' in
  updateFormDataAt path (getOutputValue formattedValue s) s'.

Definition onChange (target : object) (s : FieldState) : FieldState :=
  let newValue :=
    if hasOwnProperty target key_checked
    then get target key_checked
    else get target key_value in
  setValue newValue s.

Definition timer_expired (handle : nat) (s : FieldState) : FieldState :=
  if existsb (Nat.eqb handle) (armedTimers s)
  then setIsUpdating false (clearTimeout handle s)
  else s.

(** What can happen to a field: a call of one of the operations it
    exposes, the resolution of the promise of a run, the expiry of a
    timer. *)
Inductive event :=
| SetValue (newValue : jsval)
| OnChange (target : object)
| Validate (formSnapshot : jsval) (validationData : ValidationData)
| Settle (iteration : nat)
| ClearErrors (validationType : option type_filter)
| SetErrors (newErrors : list object)
| TimerExpired (handle : nat).

Definition step (s : FieldState) (e : event)
    : FieldState * option FieldValidateResponse :=
  match e with
  | SetValue newValue => (setValue newValue s, None)
  | OnChange target => (onChange target s, None)
  | Validate formSnapshot validationData => validate formSnapshot validationData s
  | Settle iteration => settle iteration s
  | ClearErrors validationType => (clearErrors validationType s, None)
  | SetErrors newErrors => (setErrors (fun _ => newErrors) s, None)
  | TimerExpired handle => (timer_expired handle s, None)
  end.

Definition run_events (s : FieldState) (es : list event) : FieldState :=
  fold_left (fun s e => fst (step s e)) es s.

End Hook.

(** ** Reading the error messages *)

Section Messages.

(** The ToString conversion of a template literal. *)
Variable ToString : jsval -> jsstring.

Definition error_matches (validationType : jsstring) (error : object) : bool :=
  strict_eq_string (get error key_validationType) validationType
  || (jsstring_eqb validationType VALIDATION_TYPES_FIELD
      && negb (hasOwnProperty error key_validationType)).

Definition getErrorsMessages (errors : list object)
    (validationType : option jsstring) : jsval :=
  let validationType :=
    match validationType with
    | Some t => t
    | None => VALIDATION_TYPES_FIELD
    end in
  let errorMessages :=
    fold_left
      (fun messages error =>
         if error_matches validationType error
         then
           if truthy messages
           then JStr (ToString messages ++ lit ", " ++ ToString (get error key_message))
           else get error key_message
         else messages)
      errors (JStr []) in
  if truthy errorMessages then errorMessages else JNull.

End Messages.

(** ** The claims in the specification's words *)

(** A string containing only whitespace. *)
Definition whitespace_only (x : jsval) : bool :=
  match x with
  | JStr s => forallb is_whitespace s
  | _ => false
  end.


(** A call that changes the value: [setValue], directly or through
    [onChange]. *)
Definition is_value_change (e : event) : bool :=
  match e with
  | SetValue _ | OnChange _ => true
  | _ => false
  end.

Definition is_validate (e : event) : bool :=
  match e with
  | Validate _ _ => true
  | _ => false
  end.

Definition is_settle_of (iteration : nat) (e : event) : bool :=
  match e with
  | Settle i => (i =? iteration)%nat
  | _ => false
  end.

(** The text of a message that is a string. *)
Definition message_text (error : object) : jsstring :=
  match get error key_message with
  | JStr m => m
  | _ => []
  end.

Definition is_string (v : jsval) : bool :=
  match v with
  | JStr _ => true
  | _ => false
  end.

Fixpoint drop_empty (l : list jsstring) : list jsstring :=
  match l with
  | [] :: l' => drop_empty l'
  | _ => l
  end.

(** The type a call addresses: the field type when none is given. *)
Definition addressed_type (t : option jsstring) : jsstring :=
  match t with
  | Some t' => t'
  | None => VALIDATION_TYPES_FIELD
  end.

(** A number field without a configured formatter. *)
Definition number_without_formatters (config : FieldConfig) : bool :=
  jsstring_eqb (field_type config) FIELD_TYPES_NUMBER
  && (List.length (formatters config) =? 0)%nat.


(** The run a call of [validate] starts in state [s]: its sequence number,
    the type it addresses and the errors of its validators. *)
Definition started_run (path : jsstring) (config : FieldConfig)
    (s : FieldState) (formSnapshot : jsval) (validationData : ValidationData)
    : PendingRun :=
  {| validateIteration := S (validateCounter s);
     run_validationType := data_validationType validationData;
     run_errors :=
       validateSync
         match data_formData validationData with
         | Some d => d
         | None => formSnapshot
         end
         match data_value validationData with
         | Some v => v
         | None => value s
         end
         (data_validationType validationData) path (validations config) |}.

Definition has_iteration (iteration : nat) (r : PendingRun) : bool :=
  (validateIteration r =? iteration)%nat.

(** No run in flight is numbered above the counter. *)
Definition pending_bounded (s : FieldState) : Prop :=
  Forall (fun r => validateIteration r <= validateCounter s) (pendingRuns s).

(** Run [r], numbered [a], has been started and is still in flight. *)
Definition in_flight (a : nat) (r : PendingRun) (s : FieldState) : Prop :=
  a <= validateCounter s /\ find (has_iteration a) (pendingRuns s) = Some r.

(** The separator of the messages. *)
Definition separator : jsstring := lit ", ".

(** The errors [getErrorsMessages t] selects. *)
Definition matching_errors (t : option jsstring) (errs : list object)
    : list object :=
  filter (error_matches (addressed_type t)) errs.

(** The states a field goes through. *)
Definition reachable (toInt : jsval -> jsval) (path : jsstring)
    (config : FieldConfig) (s : FieldState) : Prop :=
  exists es, s = run_events toInt path config (initial_state config) es.

(** ** Sample data *)

Definition sample_path : jsstring := lit "name".

(** A stand-in for the to-integer formatter: the digits of a string read as
    a number, NaN for anything else. *)
Definition sample_toInt (v : jsval) : jsval :=
  match v with
  | JStr (c :: s) =>
      if forallb (fun d => (48 <=? d) && (d <=? 57))%N (c :: s)
      then JNum (fold_left (fun acc d => acc * 10 + (Z.of_N d - 48))%Z (c :: s) 0%Z)
      else JNaN
  | JNum z => JNum z
  | _ => JNaN
  end.

(** A stand-in for ToString, exact on strings. *)
Definition sample_ToString (v : jsval) : jsstring :=
  match v with
  | JStr s => s
  | JUndefined => lit "undefined"
  | JNull => lit "null"
  | JBool true => lit "true"
  | JBool false => lit "false"
  | JNaN => lit "NaN"
  | JNum z => lit (NilZero.string_of_int (Z.to_int z))
  | JObj _ => lit "[object Object]"
  end.

Definition number_config : FieldConfig :=
  {| defaultValue := None;
     config_type := Some FIELD_TYPES_NUMBER;
     validations := [];
     formatters := [];
     isValidationAsync := false;
     serializer := None;
     deSerializer := None |}.

Definition field_error (t m : string) : object :=
  [(key_message, JStr (lit m)); (key_validationType, JStr (lit t))].

Definition untyped_error (m : string) : object :=
  [(key_message, JStr (lit m))].

Definition failure (m : string) : jsval := JObj (untyped_error m).

(** A validator that fails when the value is empty. *)
Definition sample_required (a : ValidatorArgs) : outcome :=
  if truthy (arg_value a) then Returns JUndefined
  else Returns (failure "Field is required").

Definition always_returns (v : jsval) (a : ValidatorArgs) : outcome := Returns v.

Definition always_throws (v : jsval) (a : ValidatorArgs) : outcome := Throws v.

Definition validation_of (f : ValidatorArgs -> outcome) (e : option bool)
    : ValidationConfig :=
  {| validator := f; exitOnFail := e; type := None; message := None |}.

Definition no_data : ValidationData :=
  {| data_formData := None; data_value := None; data_validationType := None |}.

Definition field_data : ValidationData :=
  {| data_formData := None; data_value := None;
     data_validationType := Some VALIDATION_TYPES_FIELD |}.

Definition text_config (async : bool) (vs : list ValidationConfig) : FieldConfig :=
  {| defaultValue := None;
     config_type := None;
     validations := vs;
     formatters := [];
     isValidationAsync := async;
     serializer := None;
     deSerializer := None |}.

Definition with_errors (errs : list object) (config : FieldConfig) : FieldState :=
  setErrors (fun _ => errs) (initial_state config).

Definition passes : ValidationConfig :=
  validation_of (always_returns JUndefined) None.

Definition required : ValidationConfig := validation_of sample_required None.

Definition too_short : ValidationConfig :=
  validation_of (always_returns (failure "Too short")) None.



Definition taken_thrower (e : option bool) : ValidationConfig :=
  validation_of (always_throws (failure "Taken")) e.


Definition async_config : FieldConfig := text_config true [required].

Definition sync_config : FieldConfig := text_config false [required].

(** Two overlapping calls of [validate] on a new asynchronous field, with a
    change of the value in between. *)
Definition overlapped_state : FieldState :=
  run_events sample_toInt sample_path async_config (initial_state async_config)
    [Validate JNull no_data; SetValue (JStr (lit "abc")); Validate JNull no_data].

Definition two_errors_state : FieldState :=
  with_errors [field_error "async" "Taken"; field_error "field" "Old"] sync_config.

Definition async_error_state : FieldState :=
  with_errors [field_error "async" "Taken"] async_config.

Definition empty_then_a : list object :=
  [field_error "field" ""; field_error "field" "a"].

(** ** Further notions used to state what the code guarantees *)

(** [e] is the error the run builds from a truthy result [r] of a
    validation of [vs] that the call does not leave out. *)
Definition produced_by (validationTypeToValidate : option jsstring)
    (vs : list ValidationConfig) (e : object) : Prop :=
  exists v r,
    In v vs
    /\ out_of_scope validationTypeToValidate v = false
    /\ truthy r = true
    /\ e = validation_error v r.

(** Position [i] holds a validation the call does not leave out. *)
Definition in_scope_at (validationTypeToValidate : option jsstring)
    (vs : list ValidationConfig) (i : nat) : Prop :=
  exists v,
    nth_error vs i = Some v /\ out_of_scope validationTypeToValidate v = false.

(** The part of the state that value changes and timers work on, and the
    part that validation works on. *)
Definition ui_part (s : FieldState) :=
  (value s, isPristine s, isUpdating s, debounceTimeout s, armedTimers s,
   timerHandles s, formWrites s).

Definition validation_part (s : FieldState) :=
  (errors s, isValidating s, validateCounter s, pendingRuns s).

Definition is_timer (e : event) : bool :=
  match e with
  | TimerExpired _ => true
  | _ => false
  end.



(** The runs in flight carry distinct numbers, from 1 up to the counter. *)
Definition well_numbered (s : FieldState) : Prop :=
  NoDup (map validateIteration (pendingRuns s))
  /\ Forall (fun r => 1 <= validateIteration r <= validateCounter s)
       (pendingRuns s).

(** The state once the result of run [r] has been applied. *)
Definition applied (r : PendingRun) (s : FieldState) : list object :=
  filterErrors (errors s) (option_map OneType (run_validationType r))
  ++ run_errors r.

Definition response_of (r : PendingRun) : FieldValidateResponse :=
  {| isValid := (List.length (run_errors r) =? 0)%nat;
     response_errors := run_errors r |}.

(** An error without an own [validationType] property. *)
Definition untyped (error : object) : bool :=
  negb (hasOwnProperty error key_validationType).

(** The array of types a [type_filter] stands for. *)
Definition types_of (f : type_filter) : list jsstring :=
  match f with
  | OneType t => [t]
  | ManyTypes ts => ts
  end.

Definition has_type (t : jsstring) (error : object) : bool :=
  strict_eq_string (get error key_validationType) t.

Definition typed_data (t : jsstring) : ValidationData :=
  {| data_formData := None; data_value := None;
     data_validationType := Some t |}.

(** ** The network adapter (getNetworkTopNFlow, getNetworkDns)

    The two queries of the Elasticsearch network adapter, from the response
    of the search on: the building of the query and the call of the search
    are the framework's.  A response is given by what the adapter reads in
    it; counts and sizes are integers. *)

Module Network.

(** [l.splice(start, deleteCount)] with integer arguments: the elements
    removed.  A negative [start] counts from the end; both arguments are
    clamped to the array. *)
Definition splice {A} (l : list A) (start deleteCount : Z) : list A :=
  let len := Z.of_nat (List.length l) in
  let actualStart :=
    if (start <? 0)%Z then Z.max (len + start) 0 else Z.min start len in
  let actualDeleteCount := Z.min (Z.max deleteCount 0) (len - actualStart) in
  firstn (Z.to_nat actualDeleteCount) (skipn (Z.to_nat actualStart) l).

(** What [get(path, bucket)] finds at the path of a metric. *)
Inductive metric :=
| Undefined
| Null
| Number (z : Z).

(** [getOrNumber]; [None] is null. *)
Definition getOrNumber (numb : metric) : option Z :=
  match numb with
  | Undefined | Null => None
  | Number z => Some z
  end.

Record KeyBucket := { sub_key : jsstring }.

Record NetworkDnsBuckets := {
  dns_key : jsstring;
  doc_count : Z;
  unique_domains : metric;
  dns_bytes_in : metric;
  dns_bytes_out : metric
}.

Record NetworkTopNFlowBuckets := {
  flow_key : jsstring;
  ip_count : metric;
  domain : list KeyBucket;
  bytes : metric;
  packets : metric;
  direction : list KeyBucket
}.

(** [tiebreaker] is always null. *)
Record Cursor := {
  cursor_value : jsstring;
  tiebreaker : option jsstring
}.

Record NetworkDnsItem := {
  dns_id : jsstring;
  dnsBytesIn : option Z;
  dnsBytesOut : option Z;
  dnsName : jsstring;
  queryCount : Z;
  uniqueDomains : option Z
}.

Record NetworkDnsEdges := {
  dns_node : NetworkDnsItem;
  dns_cursor : Cursor
}.

Record PaginationInput := {
  activePage : option Z;
  cursorStart : Z;
  fakePossibleCount : Z;
  querySize : Z
}.

Record PageInfo := {
  page_activePage : Z;
  fakeTotalCount : Z;
  showMorePagesIndicator : bool
}.

(** The data a query answers, without its [inspect] entry (the query and
    the response as text). *)
Record NetworkData (edge : Type) := {
  edges : list edge;
  pageInfo : PageInfo;
  totalCount : Z
}.

Arguments edges {edge}.
Arguments pageInfo {edge}.
Arguments totalCount {edge}.

(** A response: the value at the path of the count, if there is one, and
    the buckets at the paths of the aggregations, if there are. *)
Record DnsResponse := {
  dns_count : option Z;
  dns_name_query_count : option (list NetworkDnsBuckets)
}.

Record TopNFlowResponse := {
  top_n_flow_count : option Z;
  top_uni_flow : option (list NetworkTopNFlowBuckets);
  top_bi_flow : option (list NetworkTopNFlowBuckets)
}.

Inductive FlowDirection :=
| uniDirectional
| biDirectional.

Definition getOr {A} (default : A) (found : option A) : A :=
  match found with
  | Some a => a
  | None => default
  end.

Definition formatDnsEdges (buckets : list NetworkDnsBuckets)
    : list NetworkDnsEdges :=
  map
    (fun bucket =>
       {| dns_node :=
            {| dns_id := dns_key bucket;
               dnsBytesIn := getOrNumber (dns_bytes_in bucket);
               dnsBytesOut := getOrNumber (dns_bytes_out bucket);
               dnsName := dns_key bucket;
               queryCount := doc_count bucket;
               uniqueDomains := getOrNumber (unique_domains bucket) |};
          dns_cursor := {| cursor_value := dns_key bucket; tiebreaker := None |} |})
    buckets.

(** From the destructuring of [options.pagination] on, the two queries run
    the same statements on their count and their edges. *)
Definition page {edge : Type} (totalCount : Z) (allEdges : list edge)
    (pagination : PaginationInput) : NetworkData edge :=
  let fakeTotalCount :=
    if (fakePossibleCount pagination <=? totalCount)%Z
    then fakePossibleCount pagination
    else totalCount in
  let edges :=
    splice allEdges (cursorStart pagination)
      (querySize pagination - cursorStart pagination) in
  let showMorePagesIndicator := (fakeTotalCount <? totalCount)%Z in
  {| edges := edges;
     pageInfo :=
       {| page_activePage :=
            match activePage pagination with
            | Some p => p
            | None => 0%Z
            end;
          fakeTotalCount := fakeTotalCount;
          showMorePagesIndicator := showMorePagesIndicator |};
     totalCount := totalCount |}.

Definition getNetworkDns (response : DnsResponse) (pagination : PaginationInput)
    : NetworkData NetworkDnsEdges :=
  let totalCount := getOr 0%Z (dns_count response) in
  let networkDnsEdges :=
    formatDnsEdges (getOr [] (dns_name_query_count response)) in
  page totalCount networkDnsEdges pagination.

Section TopNFlow.

(** The constant of [common/constants] and the enumeration of the flow
    targets are not among the sources. *)
Variable DEFAULT_MAX_TABLE_QUERY_SIZE : Z.
Variable FlowTarget : Type.

Record NetworkTopNFlowItem := {
  flow_id : jsstring;
  target : FlowTarget;
  target_count : option Z;
  target_domain : list jsstring;
  target_ip : jsstring;
  network_bytes : option Z;
  network_packets : option Z;
  network_direction : list jsstring
}.

Record NetworkTopNFlowEdges := {
  flow_node : NetworkTopNFlowItem;
  flow_cursor : Cursor
}.

Record NetworkTopNFlowRequestOptions := {
  flowDirection : FlowDirection;
  flowTarget : FlowTarget;
  pagination : PaginationInput
}.

Definition formatTopNFlowEdges (buckets : list NetworkTopNFlowBuckets)
    (flowTarget : FlowTarget) : list NetworkTopNFlowEdges :=
  map
    (fun bucket =>
       {| flow_node :=
            {| flow_id := flow_key bucket;
               target := flowTarget;
               target_count := getOrNumber (ip_count bucket);
               target_domain := map sub_key (domain bucket);
               target_ip := flow_key bucket;
               network_bytes := getOrNumber (bytes bucket);
               network_packets := getOrNumber (packets bucket);
               network_direction := map sub_key (direction bucket) |};
          flow_cursor := {| cursor_value := flow_key bucket; tiebreaker := None |} |})
    buckets.

(** The error thrown for a query size that is too large, with the limit
    its message names. *)
Inductive query_error :=
| NoQuerySizeAbove (limit : Z).

Definition getTopNFlowEdges (response : TopNFlowResponse)
    (options : NetworkTopNFlowRequestOptions)
    : query_error + list NetworkTopNFlowEdges :=
  if (DEFAULT_MAX_TABLE_QUERY_SIZE <=? querySize (pagination options))%Z
  then inl (NoQuerySizeAbove DEFAULT_MAX_TABLE_QUERY_SIZE)
  else
    match flowDirection options with
    | uniDirectional =>
        inr (formatTopNFlowEdges (getOr [] (top_uni_flow response))
               (flowTarget options))
    | biDirectional =>
        inr (formatTopNFlowEdges (getOr [] (top_bi_flow response))
               (flowTarget options))
    end.

Definition getNetworkTopNFlow (response : TopNFlowResponse)
    (options : NetworkTopNFlowRequestOptions)
    : query_error + NetworkData NetworkTopNFlowEdges :=
  let totalCount := getOr 0%Z (top_n_flow_count response) in
  match getTopNFlowEdges response options with
  | inl error => inl error
  | inr networkTopNFlowEdges =>
      inr (page totalCount networkTopNFlowEdges (pagination options))
  end.

End TopNFlow.

(** The window of a list from position [a] to position [b]. *)
Definition window {A} (a b : Z) (l : list A) : list A :=
  firstn (Z.to_nat (b - a)) (skipn (Z.to_nat a) l).

Definition with_window (a b : Z) (p : PaginationInput) : PaginationInput :=
  {| activePage := activePage p;
     cursorStart := a;
     fakePossibleCount := fakePossibleCount p;
     querySize := b |}.

Definition sample_bucket (k : string) (n : Z) : NetworkDnsBuckets :=
  {| dns_key := lit k; doc_count := n; unique_domains := Number n;
     dns_bytes_in := Null; dns_bytes_out := Undefined |}.

Definition sample_response : DnsResponse :=
  {| dns_count := Some 3%Z;
     dns_name_query_count :=
       Some [sample_bucket "a" 1; sample_bucket "b" 2; sample_bucket "c" 3] |}.

Definition sample_pagination : PaginationInput :=
  {| activePage := None; cursorStart := 0; fakePossibleCount := 2;
     querySize := 2 |}.

Definition sample_flow_response : TopNFlowResponse :=
  {| top_n_flow_count := None; top_uni_flow := None; top_bi_flow := None |}.

End Network.

(** ** Lemmas on values *)

Lemma jsstring_eqb_eq (a b : jsstring) : jsstring_eqb a b = true <-> a = b.
Proof.
  revert b; induction a as [|x a IH]; intros [|y b]; simpl;
    try (split; congruence).
  rewrite andb_true_iff, N.eqb_eq, IH. split.
  - intros [-> ->]; reflexivity.
  - intros H; inversion H; auto.
Qed.

Lemma jsstring_eqb_refl (a : jsstring) : jsstring_eqb a a = true.
Proof. apply jsstring_eqb_eq; reflexivity. Qed.

Lemma jsstring_eqb_neq (a b : jsstring) : jsstring_eqb a b = false <-> a <> b.
Proof.
  rewrite <- jsstring_eqb_eq. destruct (jsstring_eqb a b); split; congruence.
Qed.

Lemma strict_eq_string_iff (v : jsval) (s : jsstring) :
  strict_eq_string v s = true <-> v = JStr s.
Proof.
  destruct v; simpl; try (split; congruence).
  rewrite jsstring_eqb_eq. split; congruence.
Qed.

Lemma strict_eq_string_false (v : jsval) (s : jsstring) :
  strict_eq_string v s = false <-> v <> JStr s.
Proof.
  rewrite <- strict_eq_string_iff.
  destruct (strict_eq_string v s); split; congruence.
Qed.

Lemma lookup_set_prop_same (k : jsstring) (v : jsval) (o : object) :
  lookup k (set_prop k v o) = Some v.
Proof.
  induction o as [|[k' v'] o IH]; simpl.
  - rewrite jsstring_eqb_refl; reflexivity.
  - destruct (jsstring_eqb k' k) eqn:E; simpl; rewrite E; auto.
Qed.

Lemma lookup_set_prop_other (k k' : jsstring) (v : jsval) (o : object) :
  k <> k' -> lookup k' (set_prop k v o) = lookup k' o.
Proof.
  intros Hk. induction o as [|[k0 v0] o IH]; simpl.
  - apply jsstring_eqb_neq in Hk. rewrite Hk; reflexivity.
  - destruct (jsstring_eqb k0 k) eqn:E; simpl.
    + apply jsstring_eqb_eq in E; subst k0.
      apply jsstring_eqb_neq in Hk. rewrite Hk; reflexivity.
    + destruct (jsstring_eqb k0 k'); auto.
Qed.

Lemma trimStart_nil (s : jsstring) :
  trimStart s = [] <-> forallb is_whitespace s = true.
Proof.
  induction s as [|c s IH]; simpl.
  - split; reflexivity.
  - destruct (is_whitespace c); simpl; [exact IH | split; discriminate].
Qed.

Lemma trimStart_all_whitespace (s : jsstring) :
  forallb is_whitespace (trimStart s) = true -> trimStart s = [].
Proof.
  induction s as [|c s IH]; simpl; auto.
  destruct (is_whitespace c) eqn:E; auto.
  simpl. rewrite E. discriminate.
Qed.

Lemma forallb_rev {A} (f : A -> bool) (l : list A) :
  forallb f (rev l) = forallb f l.
Proof.
  induction l as [|a l IH]; simpl; auto.
  rewrite forallb_app, IH. simpl. rewrite andb_true_r, andb_comm. reflexivity.
Qed.

Lemma trim_nil (s : jsstring) :
  trim s = [] <-> forallb is_whitespace s = true.
Proof.
  unfold trim, trimEnd. split.
  - intros H.
    assert (H1 : trimStart (rev (trimStart s)) = []).
    { destruct (trimStart (rev (trimStart s))) as [|c l]; auto.
      simpl in H. destruct (rev l); discriminate. }
    apply trimStart_nil in H1. rewrite forallb_rev in H1.
    apply trimStart_all_whitespace in H1. apply trimStart_nil; assumption.
  - intros H. apply trimStart_nil in H. rewrite H. reflexivity.
Qed.

Lemma isEmptyString_whitespace_only (x : jsval) :
  isEmptyString x = whitespace_only x.
Proof.
  destruct x; simpl; auto.
  destruct (forallb is_whitespace s) eqn:E.
  - apply trim_nil in E. rewrite E. reflexivity.
  - apply jsstring_eqb_neq. intros H. apply trim_nil in H. congruence.
Qed.


(** ** Formatters and [setValue] *)

Lemma value_setValue toInt path config x s :
  value (setValue toInt path config x s)
  = runFormatters (hook_formatters toInt config) x.
Proof. reflexivity. Qed.


(** C9: a field of type number that configures no formatter gets the
    to-integer formatter as its only formatter, so [setValue x] stores
    [toInt x] for every [x] that is not a whitespace-only string; any other
    field keeps exactly its configured formatters.  Installing the default
    again changes nothing. *)
Theorem number_field_default_formatter
    (toInt : jsval -> jsval) (path : jsstring) (config : FieldConfig) :
  hook_formatters toInt config
  = (if number_without_formatters config then [toInt] else formatters config)
  /\ setDefaultFormatter toInt (field_type config) (hook_formatters toInt config)
     = hook_formatters toInt config
  /\ forall (x : jsval) (s : FieldState),
       number_without_formatters config = true ->
       whitespace_only x = false ->
       value (setValue toInt path config x s) = toInt x.
Proof.
  assert (H : hook_formatters toInt config
              = if number_without_formatters config then [toInt]
                else formatters config).
  { unfold hook_formatters, setDefaultFormatter, number_without_formatters.
    destruct (formatters config) as [|f fs]; simpl.
    - rewrite andb_true_r.
      destruct (jsstring_eqb (field_type config) FIELD_TYPES_NUMBER); reflexivity.
    - rewrite andb_false_r. reflexivity. }
  split; [exact H|]. split.
  - rewrite H. unfold setDefaultFormatter, number_without_formatters.
    destruct (formatters config) as [|f fs]; simpl.
    + rewrite andb_true_r.
      destruct (jsstring_eqb (field_type config) FIELD_TYPES_NUMBER) eqn:E;
        simpl; rewrite ?E; reflexivity.
    + rewrite andb_false_r. reflexivity.
  - intros x s Hn Hx. rewrite value_setValue, H, Hn. unfold runFormatters.
    rewrite isEmptyString_whitespace_only, Hx. reflexivity.
Qed.

Lemma number_field_default_formatter_witness :
  value (setValue sample_toInt sample_path number_config (JStr (lit "42"))
           (initial_state number_config))
  = JNum 42.
Proof.
  exact (proj2 (proj2 (number_field_default_formatter sample_toInt sample_path
                         number_config))
           (JStr (lit "42")) (initial_state number_config)
           eq_refl eq_refl).
Defined.

(** ** The pristine flag *)

Lemma isPristine_onValueChange (s : FieldState) :
  isPristine (onValueChange s) = false.
Proof.
  unfold onValueChange.
  destruct (isPristine s) eqn:E; simpl;
    destruct (debounceTimeout s); simpl; auto.
Qed.

Lemma isPristine_setValue toInt path config x s :
  isPristine (setValue toInt path config x s) = false.
Proof. unfold setValue. simpl. apply isPristine_onValueChange. Qed.

Lemma isPristine_step toInt path config s e :
  isPristine (fst (step toInt path config s e))
  = isPristine s && negb (is_value_change e).
Proof.
  destruct e; cbn [step fst is_value_change negb];
    rewrite ?andb_true_r, ?andb_false_r; try reflexivity.
  - apply isPristine_setValue.
  - unfold onChange. apply isPristine_setValue.
  - unfold validate. destruct (isValidationAsync config); simpl; try reflexivity.
    destruct (validateCounter s =? validateCounter s)%nat; reflexivity.
  - unfold settle.
    destruct (find _ (pendingRuns s)) as [r|]; simpl; try reflexivity.
    destruct (validateIteration r =? validateCounter s)%nat; reflexivity.
  - unfold timer_expired.
    destruct (existsb _ (armedTimers s)); reflexivity.
Qed.

(** C5: the pristine flag is true when the field is created; after any
    sequence of operations, promise resolutions and timer expiries it is
    true exactly when it was true before and no [setValue] call (direct or
    through [onChange]) is among them.  So the first [setValue] makes it false,
    later ones leave it false, and nothing sets it back to true. *)
Theorem pristine_until_first_setValue
    (toInt : jsval -> jsval) (path : jsstring) (config : FieldConfig) :
  isPristine (initial_state config) = true
  /\ forall (s : FieldState) (es : list event),
       isPristine (run_events toInt path config s es)
       = isPristine s && negb (existsb is_value_change es).
Proof.
  split; [reflexivity|].
  intros s es; revert s. unfold run_events.
  induction es as [|e es IH]; intros s; simpl.
  - rewrite andb_true_r; reflexivity.
  - rewrite IH, isPristine_step, negb_orb, andb_assoc. reflexivity.
Qed.

(** ** Filtering the errors *)

Lemma filterErrors_one (l : list object) (t : jsstring) :
  filterErrors l (Some (OneType t))
  = filter (fun e => negb (strict_eq_string (get e key_validationType) t)) l.
Proof.
  unfold filterErrors. apply filter_ext. intros e. simpl.
  rewrite andb_true_r. reflexivity.
Qed.

Lemma filterErrors_default (l : list object) :
  filterErrors l None = filterErrors l (Some (OneType VALIDATION_TYPES_FIELD)).
Proof. reflexivity. Qed.

Lemma In_filterErrors (l : list object) (f : option type_filter) (e : object) :
  In e (filterErrors l f)
  <-> In e l
      /\ forall t,
           In t match f with
                | None => [VALIDATION_TYPES_FIELD]
                | Some (OneType t) => [t]
                | Some (ManyTypes ts) => ts
                end ->
           get e key_validationType <> JStr t.
Proof.
  unfold filterErrors. rewrite filter_In, forallb_forall.
  split; intros [H1 H2]; split; auto; intros t Ht.
  - apply strict_eq_string_false. specialize (H2 t Ht).
    destruct (strict_eq_string _ t); [discriminate | reflexivity].
  - apply H2, strict_eq_string_false in Ht. rewrite Ht. reflexivity.
Qed.

(** C6: [clearErrors t] (with [t] the field type when omitted) deletes from
    the error list exactly the errors whose [validationType] is [t]: the
    others stay, in their order, and nothing else of the state changes.  In
    particular [clearErrors('async')] keeps every error whose type is not
    async. *)
Theorem clearErrors_removes_exactly_type (t : option jsstring) (s : FieldState) :
  errors (clearErrors (option_map OneType t) s)
  = filter
      (fun e => negb (strict_eq_string (get e key_validationType) (addressed_type t)))
      (errors s)
  /\ (forall e, In e (errors (clearErrors (option_map OneType t) s))
                <-> In e (errors s)
                    /\ get e key_validationType <> JStr (addressed_type t))
  /\ (forall e, In e (errors s) ->
                get e key_validationType <> JStr VALIDATION_TYPES_ASYNC ->
                In e (errors (clearErrors (Some (OneType VALIDATION_TYPES_ASYNC)) s)))
  /\ (value (clearErrors (option_map OneType t) s),
      isPristine (clearErrors (option_map OneType t) s),
      isValidating (clearErrors (option_map OneType t) s),
      isUpdating (clearErrors (option_map OneType t) s),
      validateCounter (clearErrors (option_map OneType t) s))
     = (value s, isPristine s, isValidating s, isUpdating s, validateCounter s).
Proof.
  assert (E : errors (clearErrors (option_map OneType t) s)
              = filterErrors (errors s) (Some (OneType (addressed_type t)))).
  { destruct t; reflexivity. }
  split; [rewrite E; apply filterErrors_one|].
  split; [|split].
  - intros e. rewrite E, In_filterErrors. simpl. split.
    + intros [H1 H2]; split; auto.
    + intros [H1 H2]; split; auto. intros t0 [<-|[]]; assumption.
  - intros e He Hne. simpl. apply In_filterErrors. split; auto.
    simpl. intros t0 [<-|[]]; assumption.
  - destruct t; reflexivity.
Qed.

Lemma clearErrors_removes_exactly_type_witness :
  In (field_error "field" "Required")
     (errors (clearErrors (Some (OneType VALIDATION_TYPES_ASYNC))
                (setErrors (fun _ => [field_error "async" "Taken";
                                      field_error "field" "Required"])
                   (initial_state number_config)))).
Proof.
  apply (proj1 (proj2 (proj2 (clearErrors_removes_exactly_type None
           (setErrors (fun _ => [field_error "async" "Taken";
                                 field_error "field" "Required"])
              (initial_state number_config)))))).
  - simpl. right; left; reflexivity.
  - vm_compute. discriminate.
Defined.

(** ** The run of the validators *)

Section RunFacts.

Variables formData valueToValidate : jsval.
Variable validationTypeToValidate : option jsstring.
Variable path : jsstring.

Local Abbreviation out_of_scope' := (out_of_scope validationTypeToValidate).
Local Abbreviation args := (validator_args formData valueToValidate path).
Local Abbreviation run_step' :=
  (run_step formData valueToValidate validationTypeToValidate path).
Local Abbreviation run' :=
  (run_validations formData valueToValidate validationTypeToValidate path).
Local Abbreviation validateSync' :=
  (validateSync formData valueToValidate validationTypeToValidate path).

Lemma run_step_skipped st v :
  skip st || out_of_scope' v = true ->
  run_step' st v
  = {| validationErrors := validationErrors st; skip := skip st;
       visited := S (visited st); invoked := invoked st |}.
Proof. unfold run_step, runValidation. intros ->. reflexivity. Qed.

Lemma run_step_returns st v f :
  skip st = false -> out_of_scope' v = false ->
  validator v (args (validationErrors st)) = Returns f ->
  run_step' st v
  = {| validationErrors :=
         if truthy f then validationErrors st ++ [validation_error v f]
         else validationErrors st;
       skip := truthy f && negb match exitOnFail v with
                                | Some false => true
                                | _ => false
                                end;
       visited := S (visited st);
       invoked := invoked st ++ [visited st] |}.
Proof.
  intros Hs Ho Hv. unfold run_step, runValidation. rewrite Hs, Ho, Hv. simpl.
  destruct (truthy f) eqn:Hf; simpl.
  - destruct (exitOnFail v) as [[|]|]; simpl; rewrite ?Hf; reflexivity.
  - rewrite Hf. reflexivity.
Qed.

Lemma run_step_throws st v e :
  skip st = false -> out_of_scope' v = false ->
  validator v (args (validationErrors st)) = Throws e ->
  run_step' st v
  = {| validationErrors :=
         if truthy e then validationErrors st ++ [validation_error v e]
         else validationErrors st;
       skip := true;
       visited := S (visited st);
       invoked := invoked st ++ [visited st] |}.
Proof.
  intros Hs Ho Hv. unfold run_step, runValidation. rewrite Hs, Ho, Hv.
  reflexivity.
Qed.

Lemma run_app l1 l2 : run' (l1 ++ l2) = fold_left run_step' l2 (run' l1).
Proof. unfold run_validations. apply fold_left_app. Qed.

Lemma fold_halted l st :
  skip st = true ->
  fold_left run_step' l st
  = {| validationErrors := validationErrors st; skip := true;
       visited := visited st + List.length l; invoked := invoked st |}.
Proof.
  revert st. induction l as [|v l IH]; intros st Hs; simpl.
  - rewrite Nat.add_0_r. destruct st; simpl in *; subst; reflexivity.
  - rewrite run_step_skipped by (rewrite Hs; reflexivity).
    rewrite IH by assumption. simpl. f_equal. lia.
Qed.

Lemma visited_fold l st :
  visited (fold_left run_step' l st) = visited st + List.length l.
Proof.
  revert st. induction l as [|v l IH]; intros st; simpl; [lia|].
  rewrite IH. unfold run_step. destruct (runValidation _ _ _ _ st v) as [[? ?] ?].
  simpl. lia.
Qed.

Lemma visited_run l : visited (run' l) = List.length l.
Proof. unfold run_validations. rewrite visited_fold. reflexivity. Qed.









End RunFacts.

(** ** Overlapping validation runs *)

Section Overlap.

Variable toInt : jsval -> jsval.
Variable path : jsstring.
Variable config : FieldConfig.

Local Abbreviation step' := (step toInt path config).
Local Abbreviation run_events' := (run_events toInt path config).

Lemma onValidationResult_stale i t errs s :
  i <> validateCounter s ->
  onValidationResult i t errs s
  = (s, {| isValid := (List.length errs =? 0)%nat; response_errors := errs |}).
Proof.
  intros H. unfold onValidationResult.
  apply Nat.eqb_neq in H. rewrite H. reflexivity.
Qed.

Lemma onValidationResult_counter i t errs s :
  validateCounter (fst (onValidationResult i t errs s)) = validateCounter s
  /\ pendingRuns (fst (onValidationResult i t errs s)) = pendingRuns s.
Proof.
  unfold onValidationResult. simpl.
  destruct (i =? validateCounter s)%nat; auto.
Qed.

Lemma onValueChange_frame s :
  validateCounter (onValueChange s) = validateCounter s
  /\ pendingRuns (onValueChange s) = pendingRuns s
  /\ errors (onValueChange s) = errors s
  /\ isValidating (onValueChange s) = isValidating s.
Proof.
  unfold onValueChange.
  destruct (isPristine s); simpl; destruct (debounceTimeout s); simpl; auto.
Qed.

Lemma validate_async_state snapshot data s :
  isValidationAsync config = true ->
  validateCounter (fst (validate path config snapshot data s))
  = S (validateCounter s)
  /\ pendingRuns (fst (validate path config snapshot data s))
     = pendingRuns s ++ [started_run path config s snapshot data].
Proof. intros H. unfold validate. rewrite H. simpl. auto. Qed.

Lemma validate_sync_state snapshot data s :
  isValidationAsync config = false ->
  validateCounter (fst (validate path config snapshot data s))
  = S (validateCounter s)
  /\ pendingRuns (fst (validate path config snapshot data s)) = pendingRuns s.
Proof.
  intros H. unfold validate. rewrite H.
  match goal with
  | |- context [onValidationResult ?i ?t ?e ?s0] =>
      destruct (onValidationResult_counter i t e s0) as [H1 H2];
      destruct (onValidationResult i t e s0) as [s1 r] eqn:E
  end.
  simpl in *. rewrite H1, H2. auto.
Qed.

Lemma settle_state i s :
  validateCounter (fst (settle i s)) = validateCounter s
  /\ pendingRuns (fst (settle i s))
     = filter (fun r => negb (has_iteration i r)) (pendingRuns s).
Proof.
  unfold settle. fold (has_iteration i).
  destruct (find (has_iteration i) (pendingRuns s)) as [r|] eqn:F.
  - match goal with
    | |- context [onValidationResult ?j ?t ?e ?s0] =>
        destruct (onValidationResult_counter j t e s0) as [H1 H2];
        destruct (onValidationResult j t e s0) as [s1 r1] eqn:E
    end.
    simpl in *. rewrite H1, H2. auto.
  - simpl. split; [reflexivity|].
    symmetry. apply forallb_filter_id. apply forallb_forall. intros r Hr.
    pose proof (find_none _ _ F r Hr) as Hn. rewrite Hn. reflexivity.
Qed.

Lemma other_events_state s e :
  is_validate e = false -> (forall i, e <> Settle i) ->
  validateCounter (fst (step' s e)) = validateCounter s
  /\ pendingRuns (fst (step' s e)) = pendingRuns s.
Proof.
  intros Hv Hs. destruct e; try discriminate; cbn [step fst].
  - unfold setValue, updateFormDataAt, setStateValue.
    cbn [validateCounter pendingRuns].
    destruct (onValueChange_frame s) as (-> & -> & _). auto.
  - unfold onChange, setValue, updateFormDataAt, setStateValue.
    cbn [validateCounter pendingRuns].
    destruct (onValueChange_frame s) as (-> & -> & _). auto.
  - exfalso. apply (Hs iteration). reflexivity.
  - auto.
  - auto.
  - unfold timer_expired. destruct (existsb _ _); simpl; auto.
Qed.

Ltac other_event s :=
  match goal with
  | |- context [step _ _ _ s ?e] =>
      let H := fresh in
      assert (H := other_events_state s e eq_refl
                     ltac:(intros ?; discriminate));
      destruct H as [? ->]
  end.

Lemma step_counter s e :
  validateCounter (fst (step' s e))
  = if is_validate e then S (validateCounter s) else validateCounter s.
Proof.
  destruct e;
    try (apply other_events_state; [reflexivity | intros i; discriminate]).
  - cbn [step is_validate].
    destruct (isValidationAsync config) eqn:A.
    + apply validate_async_state; assumption.
    + apply validate_sync_state; assumption.
  - apply settle_state.
Qed.

Lemma step_pending_bounded s e :
  pending_bounded s -> pending_bounded (fst (step' s e)).
Proof.
  unfold pending_bounded. intros H.
  destruct e;
    try (other_event s;
         match goal with E : validateCounter _ = _ |- _ => rewrite E end;
         assumption).
  - cbn [step]. destruct (isValidationAsync config) eqn:A.
    + destruct (validate_async_state formSnapshot validationData s A) as [-> ->].
      apply Forall_app. split.
      * eapply Forall_impl; [|exact H]. simpl. intros; lia.
      * constructor; [simpl; lia | constructor].
    + destruct (validate_sync_state formSnapshot validationData s A) as [-> ->].
      eapply Forall_impl; [|exact H]. simpl. intros; lia.
  - cbn [step]. destruct (settle_state iteration s) as [-> ->].
    apply Forall_forall. intros r Hr. apply filter_In in Hr.
    rewrite Forall_forall in H. apply H, Hr.
Qed.

Lemma run_events_pending_bounded es s :
  pending_bounded s -> pending_bounded (run_events' s es).
Proof.
  revert s. unfold run_events.
  induction es as [|e es IH]; intros s H; simpl; auto.
  apply IH, step_pending_bounded, H.
Qed.

Lemma find_filter_other {A} (p q : A -> bool) (l : list A) :
  (forall x, p x = true -> q x = true) ->
  find p (filter q l) = find p l.
Proof.
  intros H. induction l as [|x l IH]; simpl; auto.
  destruct (q x) eqn:Q; simpl.
  - rewrite IH. reflexivity.
  - destruct (p x) eqn:P; auto. rewrite (H x P) in Q. discriminate.
Qed.

Lemma find_app_some {A} (p : A -> bool) (l1 l2 : list A) (x : A) :
  find p l1 = Some x -> find p (l1 ++ l2) = Some x.
Proof.
  induction l1 as [|y l1 IH]; simpl; [discriminate|].
  destruct (p y); auto.
Qed.

Lemma step_in_flight a r s e :
  in_flight a r s -> is_settle_of a e = false ->
  in_flight a r (fst (step' s e)).
Proof.
  unfold in_flight. intros [Hc Hf] He. split.
  - rewrite step_counter. destruct (is_validate e); lia.
  - destruct e; try (other_event s; assumption).
    + cbn [step]. destruct (isValidationAsync config) eqn:A.
      * destruct (validate_async_state formSnapshot validationData s A) as [_ ->].
        apply find_app_some; assumption.
      * destruct (validate_sync_state formSnapshot validationData s A) as [_ ->].
        assumption.
    + cbn [step]. destruct (settle_state iteration s) as [_ ->].
      rewrite find_filter_other; auto.
      intros x Hx. unfold has_iteration in *. simpl in He.
      apply Nat.eqb_eq in Hx. rewrite Hx, Nat.eqb_sym, He. reflexivity.
Qed.

Lemma run_events_in_flight a r es s :
  in_flight a r s -> existsb (is_settle_of a) es = false ->
  in_flight a r (run_events' s es)
  /\ (existsb is_validate es = true -> a < validateCounter (run_events' s es)).
Proof.
  revert s. unfold run_events.
  induction es as [|e es IH]; intros s H He; simpl in *.
  - split; [assumption | discriminate].
  - apply orb_false_iff in He. destruct He as [He1 He2].
    pose proof (step_in_flight a r s e H He1) as H1.
    destruct (IH _ H1 He2) as [IH1 IH2]. split; [assumption|].
    intros Hv. destruct (is_validate e) eqn:V; simpl in Hv; auto.
    assert (Hlt : a < validateCounter (fst (step' s e))).
    { rewrite step_counter, V. destruct H; lia. }
    clear - IH1 Hlt H1.
    assert (Hmono : forall es' s', a < validateCounter s' ->
              a < validateCounter (fold_left (fun s e => fst (step' s e)) es' s')).
    { induction es' as [|e' es' IH']; intros s' Hs'; simpl; auto.
      apply IH'. rewrite step_counter. destruct (is_validate e'); lia. }
    apply Hmono, Hlt.
Qed.

Lemma find_app_none {A} (p : A -> bool) (l1 l2 : list A) :
  find p l1 = None -> find p (l1 ++ l2) = find p l2.
Proof.
  induction l1 as [|y l1 IH]; simpl; auto.
  destruct (p y); [discriminate | auto].
Qed.

Lemma started_run_in_flight snapshot data s :
  isValidationAsync config = true ->
  pending_bounded s ->
  in_flight (S (validateCounter s)) (started_run path config s snapshot data)
    (fst (step' s (Validate snapshot data))).
Proof.
  intros A Hb. unfold in_flight. cbn [step].
  destruct (validate_async_state snapshot data s A) as [-> ->].
  split; [lia|].
  rewrite find_app_none.
  - simpl. unfold has_iteration. simpl. rewrite Nat.eqb_refl. reflexivity.
  - destruct (find (has_iteration (S (validateCounter s))) (pendingRuns s))
      as [r|] eqn:F; [|reflexivity].
    apply find_some in F. destruct F as [Hin Hr].
    unfold pending_bounded in Hb. rewrite Forall_forall in Hb.
    specialize (Hb r Hin). unfold has_iteration in Hr.
    apply Nat.eqb_eq in Hr. lia.
Qed.

Lemma settle_stale a r s :
  find (has_iteration a) (pendingRuns s) = Some r ->
  a <> validateCounter s ->
  errors (fst (settle a s)) = errors s
  /\ isValidating (fst (settle a s)) = isValidating s
  /\ snd (settle a s)
     = Some {| isValid := (List.length (run_errors r) =? 0)%nat;
               response_errors := run_errors r |}.
Proof.
  intros F Hne. unfold settle. fold (has_iteration a). rewrite F.
  assert (Hr : validateIteration r = a).
  { apply find_some in F. destruct F as [_ F]. apply Nat.eqb_eq, F. }
  rewrite onValidationResult_stale by (simpl; lia). simpl. auto.
Qed.

(** C2: the result of a run is applied to the errors and to the validating
    flag only when the run carries the current sequence number, and its
    caller gets the outcome of that run either way.  So when a call A of
    [validate] on an asynchronous field is followed, before its promise
    resolves, by a call B, the resolution of A leaves the errors and the
    validating flag as they are and still answers A's own outcome. *)
Theorem stale_validation_is_dropped
    (s0 s2 : FieldState) (evs1 evs2 : list event)
    (snapshotA snapshotB : jsval) (dataA dataB : ValidationData) :
  isValidationAsync config = true ->
  reachable toInt path config s0 ->
  s2 = run_events' s0
         (Validate snapshotA dataA :: evs1 ++ Validate snapshotB dataB :: evs2) ->
  existsb (is_settle_of (S (validateCounter s0))) (evs1 ++ evs2) = false ->
  (S (validateCounter s0) < validateCounter s2
   /\ errors (fst (step' s2 (Settle (S (validateCounter s0))))) = errors s2
   /\ isValidating (fst (step' s2 (Settle (S (validateCounter s0)))))
      = isValidating s2
   /\ snd (step' s2 (Settle (S (validateCounter s0))))
      = Some {| isValid :=
                  (List.length
                     (run_errors (started_run path config s0 snapshotA dataA))
                   =? 0)%nat;
                response_errors :=
                  run_errors (started_run path config s0 snapshotA dataA) |})
  /\ (forall i t errs s,
        snd (onValidationResult i t errs s)
        = {| isValid := (List.length errs =? 0)%nat; response_errors := errs |}
        /\ (i <> validateCounter s -> fst (onValidationResult i t errs s) = s)
        /\ (i = validateCounter s ->
            errors (fst (onValidationResult i t errs s))
            = filterErrors (errors s) (option_map OneType t) ++ errs
            /\ isValidating (fst (onValidationResult i t errs s)) = false)).
Proof.
  intros A [evs0 ->] -> He. split.
  - set (s0 := run_events' (initial_state config) evs0) in *.
    set (runA := started_run path config s0 snapshotA dataA).
    set (a := S (validateCounter s0)) in *.
    assert (Hb : pending_bounded s0).
    { apply run_events_pending_bounded. constructor. }
    pose proof (started_run_in_flight snapshotA dataA s0 A Hb) as H1.
    fold runA a in H1.
    rewrite existsb_app in He. apply orb_false_iff in He. destruct He as [He1 He2].
    destruct (run_events_in_flight a runA
                (evs1 ++ Validate snapshotB dataB :: evs2) _ H1) as [[_ F] Hlt].
    { rewrite existsb_app. simpl. rewrite He1, He2. reflexivity. }
    match goal with
    | |- _ < validateCounter ?x /\ _ => set (s2 := x) in *
    end.
    assert (Hlt' : a < validateCounter s2).
    { apply Hlt. rewrite existsb_app. simpl. apply orb_true_r. }
    split; [exact Hlt'|].
    cbn [step]. apply (settle_stale a runA s2 F). lia.
  - intros i t errs s. split; [reflexivity|]. split.
    + intros Hne. rewrite onValidationResult_stale by assumption. reflexivity.
    + intros ->. unfold onValidationResult. rewrite Nat.eqb_refl. simpl. auto.
Qed.

End Overlap.

(** ** What a validation does to the errors *)

Lemma In_filterErrors_one (l : list object) (t : option jsstring) (e : object) :
  In e l ->
  get e key_validationType <> JStr (addressed_type t) ->
  In e (filterErrors l (option_map OneType t)).
Proof.
  intros Hin Hne. apply In_filterErrors. split; [assumption|].
  destruct t; simpl; intros t0 [<-|[]]; assumption.
Qed.

(** C7, as the code has it: a synchronous [validate] replaces the errors of
    the type it addresses (the field type when none is given) by those of
    the run and keeps every other error; the resolution of an asynchronous
    run does the same when the run is the current one and nothing
    otherwise.  The start of an asynchronous run however removes all field
    and async errors, whatever type the call addresses; it keeps the errors
    of every other type. *)
Theorem validate_clears_addressed_type
    (path : jsstring) (config : FieldConfig) (formSnapshot : jsval)
    (validationData : ValidationData) (s : FieldState) (e : object) :
  In e (errors s) ->
  (isValidationAsync config = false ->
   errors (fst (validate path config formSnapshot validationData s))
   = filterErrors (errors s)
       (Some (OneType (addressed_type (data_validationType validationData))))
     ++ run_errors (started_run path config s formSnapshot validationData)
   /\ (get e key_validationType
       <> JStr (addressed_type (data_validationType validationData)) ->
       In e (errors (fst (validate path config formSnapshot validationData s)))))
  /\ (isValidationAsync config = true ->
      errors (fst (validate path config formSnapshot validationData s))
      = filterErrors (errors s)
          (Some (ManyTypes [VALIDATION_TYPES_FIELD; VALIDATION_TYPES_ASYNC]))
      /\ (get e key_validationType <> JStr VALIDATION_TYPES_FIELD ->
          get e key_validationType <> JStr VALIDATION_TYPES_ASYNC ->
          In e (errors (fst (validate path config formSnapshot validationData s)))))
  /\ (forall i r,
        find (has_iteration i) (pendingRuns s) = Some r ->
        errors (fst (settle i s))
        = (if (i =? validateCounter s)%nat
           then filterErrors (errors s) (option_map OneType (run_validationType r))
                ++ run_errors r
           else errors s)
        /\ (get e key_validationType
            <> JStr (addressed_type (run_validationType r)) ->
            In e (errors (fst (settle i s))))).
Proof.
  intros Hin.
  set (s' := fst (validate path config formSnapshot validationData s)).
  set (addressed := addressed_type (data_validationType validationData)).
  split; [|split].
  - intros A.
    assert (E : errors s'
                = filterErrors (errors s) (Some (OneType addressed))
                  ++ run_errors (started_run path config s formSnapshot
                                   validationData)).
    { unfold s', validate. rewrite A. unfold onValidationResult. simpl.
      rewrite Nat.eqb_refl. simpl. unfold addressed.
      destruct (data_validationType validationData); reflexivity. }
    split; [exact E|]. intros Hne. rewrite E. apply in_or_app. left.
    apply (In_filterErrors_one _ (Some addressed)); assumption.
  - intros A.
    assert (E : errors s'
                = filterErrors (errors s)
                    (Some (ManyTypes [VALIDATION_TYPES_FIELD;
                                      VALIDATION_TYPES_ASYNC]))).
    { unfold s', validate. rewrite A. reflexivity. }
    split; [exact E|]. intros H1 H2. rewrite E. apply In_filterErrors.
    split; [assumption|]. simpl. intros t [<-|[<-|[]]]; assumption.
  - intros i r F.
    assert (Hr : validateIteration r = i).
    { apply find_some in F. destruct F as [_ F]. apply Nat.eqb_eq, F. }
    assert (E : errors (fst (settle i s))
                = if (i =? validateCounter s)%nat
                  then filterErrors (errors s)
                         (option_map OneType (run_validationType r))
                       ++ run_errors r
                  else errors s).
    { unfold settle. fold (has_iteration i). rewrite F.
      unfold onValidationResult. simpl. rewrite Hr.
      destruct (i =? validateCounter s)%nat; reflexivity. }
    split; [exact E|]. intros Hne. rewrite E.
    destruct (i =? validateCounter s)%nat; [|assumption].
    apply in_or_app. left. apply In_filterErrors_one; assumption.
Qed.

(** ** Reading the messages *)

Lemma join_merge (a m : jsstring) (rest : list jsstring) :
  join separator ((a ++ separator ++ m) :: rest)
  = join separator (a :: m :: rest).
Proof.
  destruct rest as [|r rs].
  - reflexivity.
  - cbn [join]. rewrite <- !app_assoc. reflexivity.
Qed.

Lemma join_nonempty (m : jsstring) (rest : list jsstring) :
  m <> [] -> join separator (m :: rest) <> [].
Proof.
  intros Hm. destruct rest as [|r rs]; cbn [join]; auto.
  destruct m; [congruence | discriminate].
Qed.

Lemma truthy_JStr (m : jsstring) : truthy (JStr m) = true <-> m <> [].
Proof. destruct m; simpl; split; congruence. Qed.

Lemma truthy_infix (a m b : jsstring) :
  m <> [] -> truthy (JStr (a ++ m ++ b)) = true.
Proof.
  intros Hm. apply truthy_JStr. intros H. apply app_eq_nil in H.
  destruct H as [_ H]. apply app_eq_nil in H. destruct H; congruence.
Qed.

Lemma drop_empty_head (l : list jsstring) :
  match drop_empty l with
  | [] => True
  | m :: _ => m <> []
  end.
Proof.
  induction l as [|m l IH]; simpl; auto.
  destruct m; [exact IH | discriminate].
Qed.

Lemma drop_empty_nonempty (l : list jsstring) :
  Forall (fun m => m <> []) l -> drop_empty l = l.
Proof.
  intros H. destruct H as [|m l Hm _]; simpl; auto.
  destruct m; [congruence | reflexivity].
Qed.

Lemma error_matches_iff (t : jsstring) (e : object) :
  error_matches t e = true
  <-> get e key_validationType = JStr t
      \/ (t = VALIDATION_TYPES_FIELD /\ lookup key_validationType e = None).
Proof.
  unfold error_matches, hasOwnProperty.
  rewrite orb_true_iff, andb_true_iff, strict_eq_string_iff, jsstring_eqb_eq.
  destruct (lookup key_validationType e); simpl; intuition congruence.
Qed.

Section MessagesFacts.

Variable ToString : jsval -> jsstring.
Hypothesis ToString_string : forall s, ToString (JStr s) = s.

Local Abbreviation reducer t :=
  (fun messages error =>
     if error_matches t error
     then
       if truthy messages
       then JStr (ToString messages ++ lit ", " ++ ToString (get error key_message))
       else get error key_message
     else messages).

Lemma fold_messages_from_text (t : jsstring) (errs : list object) (acc : jsstring) :
  acc <> [] ->
  Forall (fun e => is_string (get e key_message) = true)
    (filter (error_matches t) errs) ->
  fold_left (reducer t) errs (JStr acc)
  = JStr (join separator (acc :: map message_text (filter (error_matches t) errs))).
Proof.
  revert acc. induction errs as [|e errs IH]; intros acc Hacc Hs;
    cbn [fold_left filter].
  - reflexivity.
  - cbn [filter] in Hs. destruct (error_matches t e) eqn:M.
    + inversion Hs as [|? ? He Hs']; subst.
      destruct (get e key_message) as [| | | | |m|] eqn:G; try discriminate.
      apply truthy_JStr in Hacc. rewrite Hacc, !ToString_string.
      rewrite IH.
      * cbn [map]. unfold message_text at 2. rewrite G.
        apply f_equal, join_merge.
      * destruct acc; [discriminate | discriminate].
      * assumption.
    + apply IH; assumption.
Qed.

Lemma fold_messages_from_empty (t : jsstring) (errs : list object) :
  Forall (fun e => is_string (get e key_message) = true)
    (filter (error_matches t) errs) ->
  fold_left (reducer t) errs (JStr [])
  = JStr (join separator
            (drop_empty (map message_text (filter (error_matches t) errs)))).
Proof.
  induction errs as [|e errs IH]; intros Hs; cbn [fold_left filter].
  - reflexivity.
  - cbn [filter] in Hs. destruct (error_matches t e) eqn:M.
    + inversion Hs as [|? ? He Hs']; subst.
      destruct (get e key_message) as [| | | | |m|] eqn:G; try discriminate.
      cbn [map]. unfold message_text at 1. rewrite G.
      destruct m as [|c m].
      * cbn [drop_empty]. apply IH; assumption.
      * cbn [drop_empty]. apply fold_messages_from_text; [discriminate | assumption].
    + apply IH; assumption.
Qed.

(** C8, as the code has it: when the messages of the errors matching [t]
    (the field type when omitted; an error without a [validationType]
    property counts as a field error) are strings, [getErrorsMessages t] is
    their comma-separated join from the first non-empty message on, and null
    when there is none.  It is the join of all of them when none is empty,
    and null when no error matches. *)
Theorem getErrorsMessages_joins_messages
    (errs : list object) (t : option jsstring) :
  (forall e, In e (matching_errors t errs)
             <-> In e errs
                 /\ (get e key_validationType = JStr (addressed_type t)
                     \/ (addressed_type t = VALIDATION_TYPES_FIELD
                         /\ lookup key_validationType e = None)))
  /\ (matching_errors t errs = [] -> getErrorsMessages ToString errs t = JNull)
  /\ (Forall (fun e => is_string (get e key_message) = true)
        (matching_errors t errs) ->
      getErrorsMessages ToString errs t
      = match drop_empty (map message_text (matching_errors t errs)) with
        | [] => JNull
        | l => JStr (join separator l)
        end
      /\ (Forall (fun m => m <> []) (map message_text (matching_errors t errs)) ->
          getErrorsMessages ToString errs t
          = match matching_errors t errs with
            | [] => JNull
            | _ => JStr (join separator (map message_text (matching_errors t errs)))
            end)).
Proof.
  set (matching := matching_errors t errs).
  assert (Hstr : Forall (fun e => is_string (get e key_message) = true) matching ->
                 getErrorsMessages ToString errs t
                 = match drop_empty (map message_text matching) with
                   | [] => JNull
                   | l => JStr (join separator l)
                   end).
  { intros Hs. unfold getErrorsMessages. fold (addressed_type t).
    rewrite (fold_messages_from_empty (addressed_type t) errs Hs).
    fold (matching_errors t errs). fold matching.
    pose proof (drop_empty_head (map message_text matching)) as Hd.
    destruct (drop_empty (map message_text matching)) as [|m l]; [reflexivity|].
    pose proof (join_nonempty m l Hd) as Hj.
    apply truthy_JStr in Hj. rewrite Hj. reflexivity. }
  split; [|split].
  - intros e. unfold matching, matching_errors.
    rewrite filter_In, error_matches_iff. reflexivity.
  - intros Hm. rewrite Hstr; rewrite Hm; [reflexivity | constructor].
  - intros Hs. split; [exact (Hstr Hs)|].
    intros Hne. rewrite (Hstr Hs), (drop_empty_nonempty _ Hne).
    destruct matching; reflexivity.
Qed.

Lemma fold_messages_keeps (t : jsstring) (m : jsstring) (errs : list object)
    (a b : jsstring) :
  m <> [] ->
  exists b',
    fold_left (reducer t) errs (JStr (a ++ m ++ b)) = JStr (a ++ m ++ b').
Proof.
  intros Hm. revert b. induction errs as [|e errs IH]; intros b;
    cbn [fold_left].
  - exists b. reflexivity.
  - destruct (error_matches t e); [|apply IH].
    rewrite (truthy_infix a m b Hm), ToString_string.
    destruct (IH (b ++ lit ", " ++ ToString (get e key_message))) as [b' E].
    exists b'. rewrite <- E. rewrite <- !app_assoc. reflexivity.
Qed.

(** C10: an error without a [validationType] property is read as a field
    error by [getErrorsMessages] (its message, when a non-empty string, is
    part of the text returned for the field type) and is kept by every
    [clearErrors] call, whatever type or types the call names. *)
Theorem untyped_error_is_read_but_never_cleared
    (pre post : list object) (e : object) :
  lookup key_validationType e = None ->
  error_matches VALIDATION_TYPES_FIELD e = true
  /\ (forall m, get e key_message = JStr m -> m <> [] ->
        exists a b,
          getErrorsMessages ToString (pre ++ e :: post) None
          = JStr (a ++ m ++ b))
  /\ (forall (t : option type_filter) (s : FieldState),
        errors s = pre ++ e :: post ->
        exists pre' post',
          errors (clearErrors t s) = pre' ++ e :: post'
          /\ pre' = filterErrors pre (Some match t with
                                           | Some f => f
                                           | None => OneType VALIDATION_TYPES_FIELD
                                           end)
          /\ post' = filterErrors post (Some match t with
                                             | Some f => f
                                             | None => OneType VALIDATION_TYPES_FIELD
                                             end)).
Proof.
  intros Hno.
  assert (Hm : error_matches VALIDATION_TYPES_FIELD e = true).
  { apply error_matches_iff. right. auto. }
  split; [exact Hm|]. split.
  - intros m G Hne. unfold getErrorsMessages.
    rewrite fold_left_app. cbn [fold_left]. rewrite Hm, G.
    set (acc := fold_left _ pre (JStr [])).
    destruct (truthy acc).
    + rewrite ToString_string.
      destruct (fold_messages_keeps VALIDATION_TYPES_FIELD m post
                  (ToString acc ++ lit ", ") [] Hne) as [b' E].
      rewrite <- app_assoc, app_nil_r in E. rewrite E.
      exists (ToString acc ++ lit ", "), b'.
      rewrite (truthy_infix _ m b' Hne). reflexivity.
    + destruct (fold_messages_keeps VALIDATION_TYPES_FIELD m post [] [] Hne)
        as [b' E].
      rewrite app_nil_r in E. change ([] ++ m) with m in E. rewrite E.
      exists [], b'.
      rewrite (truthy_infix [] m b' Hne). reflexivity.
  - intros t s Hs. eexists. eexists. split; [|split; reflexivity].
    unfold clearErrors. simpl. rewrite Hs. unfold filterErrors.
    rewrite filter_app. simpl.
    replace (forallb _ _) with true; [reflexivity|].
    symmetry. apply forallb_forall. intros ty _.
    unfold get. rewrite Hno. reflexivity.
Qed.

End MessagesFacts.

(** ** The theorems at sample fields *)




Lemma stale_validation_is_dropped_witness :
  1 < validateCounter overlapped_state
  /\ errors (fst (step sample_toInt sample_path async_config overlapped_state
                    (Settle 1)))
     = errors overlapped_state
  /\ isValidating (fst (step sample_toInt sample_path async_config
                          overlapped_state (Settle 1)))
     = isValidating overlapped_state
  /\ snd (step sample_toInt sample_path async_config overlapped_state (Settle 1))
     = Some {| isValid := false;
               response_errors := [field_error "field" "Field is required"] |}.
Proof.
  refine (proj1 (stale_validation_is_dropped sample_toInt sample_path
                   async_config (initial_state async_config) overlapped_state
                   [SetValue (JStr (lit "abc"))] [] JNull JNull no_data no_data
                   eq_refl _ eq_refl eq_refl)).
  exists []. reflexivity.
Defined.

Lemma validate_clears_addressed_type_witness :
  In (field_error "async" "Taken")
    (errors (fst (validate sample_path sync_config JNull field_data
                    two_errors_state))).
Proof.
  refine (proj2 (proj1 (validate_clears_addressed_type sample_path sync_config
                          JNull field_data two_errors_state
                          (field_error "async" "Taken") _) eq_refl) _).
  - left. reflexivity.
  - vm_compute. discriminate.
Defined.

(** C7 fails as stated: on an asynchronous field, a [validate] call that
    addresses the field type removes the errors of type async as well. *)
Lemma async_validate_clears_async_errors :
  isValidationAsync async_config = true
  /\ In (field_error "async" "Taken") (errors async_error_state)
  /\ get (field_error "async" "Taken") key_validationType
     <> JStr (addressed_type (data_validationType field_data))
  /\ ~ In (field_error "async" "Taken")
         (errors (fst (validate sample_path async_config JNull field_data
                         async_error_state))).
Proof.
  split; [reflexivity|]. split; [left; reflexivity|]. split.
  - vm_compute. discriminate.
  - vm_compute. intros H. exact H.
Qed.

Lemma getErrorsMessages_joins_messages_witness :
  getErrorsMessages sample_ToString
    [field_error "field" "Required"; field_error "async" "Taken";
     untyped_error "Bad"] None
  = JStr (lit "Required, Bad").
Proof.
  refine (proj2 (proj2 (proj2 (getErrorsMessages_joins_messages sample_ToString
                                 (fun s => eq_refl)
                                 [field_error "field" "Required";
                                  field_error "async" "Taken";
                                  untyped_error "Bad"] None)) _) _).
  - repeat constructor.
  - repeat constructor; discriminate.
Defined.

(** C8 fails as stated: an empty message is left out of the join, with its
    separator. *)
Lemma empty_message_is_not_joined :
  getErrorsMessages sample_ToString empty_then_a None = JStr (lit "a")
  /\ join separator (map message_text (matching_errors None empty_then_a))
     = lit ", a"
  /\ getErrorsMessages sample_ToString empty_then_a None
     <> JStr (join separator (map message_text (matching_errors None empty_then_a)))
  /\ getErrorsMessages sample_ToString [field_error "field" ""] None = JNull.
Proof.
  repeat split; try reflexivity.
  vm_compute. discriminate.
Qed.

Lemma untyped_error_is_read_but_never_cleared_witness :
  error_matches VALIDATION_TYPES_FIELD (untyped_error "Bad") = true
  /\ (exists a b,
        getErrorsMessages sample_ToString
          ([field_error "field" "Required"] ++ untyped_error "Bad" :: []) None
        = JStr (a ++ lit "Bad" ++ b))
  /\ exists pre' post',
       errors (clearErrors None
                 (with_errors ([field_error "field" "Required"]
                               ++ untyped_error "Bad" :: [])
                    number_config))
       = pre' ++ untyped_error "Bad" :: post'.
Proof.
  destruct (untyped_error_is_read_but_never_cleared sample_ToString
              (fun s => eq_refl) [field_error "field" "Required"] []
              (untyped_error "Bad") eq_refl) as (H1 & H2 & H3).
  split; [exact H1|]. split.
  - apply (H2 (lit "Bad") eq_refl). discriminate.
  - destruct (H3 None (with_errors ([field_error "field" "Required"]
                                    ++ untyped_error "Bad" :: [])
                         number_config) eq_refl) as (pre' & post' & E & _).
    exists pre', post'. exact E.
Defined.

(** ** More on the run of the validators *)

(** X1: the error built from a failure carries the type of its validation
    (whatever [validationType] the failure itself had), the message the
    configuration gives (the literal, or the function applied to the
    failure) or else the failure's own message, and every other property of
    the failure unchanged. *)
Theorem validation_error_fields (v : ValidationConfig) (r : jsval) :
  get (validation_error v r) key_validationType = JStr (type_tag v)
  /\ get (validation_error v r) key_message
     = match message v with
       | Some (MessageLiteral m) => m
       | Some (MessageFunction f) => f r
       | None => get_member r key_message
       end
  /\ (forall k, k <> key_message -> k <> key_validationType ->
        lookup k (validation_error v r) = lookup k (spread r)).
Proof.
  unfold validation_error, getValidationErrorWithMessage, get.
  split; [|split].
  - rewrite lookup_set_prop_same. reflexivity.
  - rewrite lookup_set_prop_other by (vm_compute; discriminate).
    rewrite lookup_set_prop_same.
    destruct (message v) as [[m|f]|]; reflexivity.
  - intros k Hm Hv.
    rewrite lookup_set_prop_other by congruence.
    rewrite lookup_set_prop_other by congruence. reflexivity.
Qed.

Lemma validation_error_fields_witness :
  lookup (lit "code") (validation_error required (JObj [(lit "code", JNum 7)]))
  = Some (JNum 7).
Proof.
  refine (eq_trans
            (proj2 (proj2 (validation_error_fields required
                             (JObj [(lit "code", JNum 7)])))
               (lit "code") _ _) eq_refl);
    vm_compute; discriminate.
Defined.


Section MoreRunFacts.

Variables formData valueToValidate : jsval.
Variable validationTypeToValidate : option jsstring.
Variable path : jsstring.

Local Abbreviation out_of_scope' := (out_of_scope validationTypeToValidate).
Local Abbreviation args := (validator_args formData valueToValidate path).
Local Abbreviation run_step' :=
  (run_step formData valueToValidate validationTypeToValidate path).
Local Abbreviation run' :=
  (run_validations formData valueToValidate validationTypeToValidate path).
Local Abbreviation validateSync' :=
  (validateSync formData valueToValidate validationTypeToValidate path).

(** The four ways a step of the loop can go. *)
Lemma run_step_cases st v :
  (skip st || out_of_scope' v = true
   /\ run_step' st v
      = {| validationErrors := validationErrors st; skip := skip st;
           visited := S (visited st); invoked := invoked st |})
  \/ (skip st = false /\ out_of_scope' v = false
      /\ exists r,
           truthy r = false
           /\ validationErrors (run_step' st v) = validationErrors st
           /\ invoked (run_step' st v) = invoked st ++ [visited st])
  \/ (skip st = false /\ out_of_scope' v = false
      /\ exists r,
           truthy r = true
           /\ validationErrors (run_step' st v)
              = validationErrors st ++ [validation_error v r]
           /\ invoked (run_step' st v) = invoked st ++ [visited st]
           /\ (exitOnFail v <> Some false -> skip (run_step' st v) = true)).
Proof.
  destruct (skip st || out_of_scope' v) eqn:G.
  - left. split; [reflexivity|]. apply run_step_skipped. assumption.
  - apply orb_false_iff in G. destruct G as [Hs Ho].
    destruct (validator v (args (validationErrors st))) as [r|r] eqn:Hv.
    + rewrite (run_step_returns _ _ _ _ st v r Hs Ho Hv).
      destruct (truthy r) eqn:Hr; [right; right | right; left];
        split; auto; split; auto; exists r; simpl; repeat split; auto.
      intros He. destruct (exitOnFail v) as [[|]|]; try reflexivity.
      exfalso. apply He. reflexivity.
    + rewrite (run_step_throws _ _ _ _ st v r Hs Ho Hv).
      destruct (truthy r) eqn:Hr; [right; right | right; left];
        split; auto; split; auto; exists r; simpl; repeat split; auto.
Qed.

Lemma visited_run_step st v : visited (run_step' st v) = S (visited st).
Proof.
  unfold run_step.
  destruct (runValidation formData valueToValidate validationTypeToValidate
              path st v) as [[? ?] ?].
  reflexivity.
Qed.

Lemma fold_produced all l st :
  incl l all ->
  Forall (produced_by validationTypeToValidate all) (validationErrors st) ->
  Forall (produced_by validationTypeToValidate all)
    (validationErrors (fold_left run_step' l st)).
Proof.
  revert st. induction l as [|v l IH]; intros st Hincl H; simpl; auto.
  apply IH.
  - intros x Hx. apply Hincl. right; assumption.
  - destruct (run_step_cases st v) as [[_ E]|[(_ & _ & r & _ & E & _)
                                         |(_ & Ho & r & Hr & E & _)]];
      rewrite E; simpl; auto.
    apply Forall_app. split; [assumption|]. constructor; [|constructor].
    exists v, r. repeat split; auto. apply Hincl. left; reflexivity.
Qed.


Lemma fold_length l st :
  List.length (validationErrors (fold_left run_step' l st))
  <= List.length (validationErrors st) + List.length l
  /\ List.length (invoked (fold_left run_step' l st))
     <= List.length (invoked st) + List.length l.
Proof.
  revert st. induction l as [|v l IH]; intros st; simpl; [lia|].
  destruct (IH (run_step' st v)) as [H1 H2].
  destruct (run_step_cases st v) as [[_ E]|[(_ & _ & r & _ & E1 & E2)
                                         |(_ & _ & r & _ & E1 & E2 & _)]].
  - rewrite E in *. simpl in *. lia.
  - rewrite E1, E2 in *. rewrite ?length_app in *. simpl in *. lia.
  - rewrite E1, E2 in *. rewrite ?length_app in *. simpl in *. lia.
Qed.

Lemma fold_one_error l st :
  (forall v, In v l -> exitOnFail v <> Some false) ->
  validationErrors (fold_left run_step' l st) = validationErrors st
  \/ (skip (fold_left run_step' l st) = true
      /\ exists e,
           validationErrors (fold_left run_step' l st)
           = validationErrors st ++ [e]).
Proof.
  revert st. induction l as [|v l IH]; intros st H; simpl; auto.
  assert (Hl : forall w, In w l -> exitOnFail w <> Some false).
  { intros w Hw. apply H. right; assumption. }
  destruct (run_step_cases st v) as [[_ E]|[(_ & _ & r & _ & E & _)
                                         |(_ & _ & r & _ & E & _ & Hk)]].
  - destruct (IH (run_step' st v) Hl) as [F|(F1 & e & F2)];
      rewrite E in *; simpl in *; [left | right]; eauto.
  - destruct (IH (run_step' st v) Hl) as [F|(F1 & e & F2)];
      rewrite E in *; [left | right]; eauto.
  - right. specialize (Hk (H v (or_introl eq_refl))).
    rewrite (fold_halted _ _ _ _ l (run_step' st v) Hk). simpl.
    split; [reflexivity|]. exists (validation_error v r). exact E.
Qed.

(** X3: a run reports at most one error per validation, and at most one
    error in all when no validation has [exitOnFail] false, whether the
    validators return or throw their failures. *)
Theorem run_error_count (vs : list ValidationConfig) :
  List.length (validateSync' vs) <= List.length vs
  /\ List.length (invoked (run' vs)) <= List.length vs
  /\ ((forall v, In v vs -> exitOnFail v <> Some false) ->
      List.length (validateSync' vs) <= 1).
Proof.
  destruct (fold_length vs run_start) as [H1 H2]. simpl in H1, H2.
  split; [exact H1|]. split; [exact H2|].
  intros H. unfold validateSync, run_validations.
  destruct (fold_one_error vs run_start H) as [E|(_ & e & E)];
    rewrite E; simpl; lia.
Qed.

(** X4: a validator that throws a falsy value ends the run without an
    error of its own: the result is the errors of the validations before
    it, and nothing after it is called. *)
Theorem falsy_throw_halts_silently
    (pre post : list ValidationConfig) (v : ValidationConfig) (e : jsval) :
  skip (run' pre) = false ->
  out_of_scope' v = false ->
  validator v (args (validationErrors (run' pre))) = Throws e ->
  truthy e = false ->
  validateSync' (pre ++ v :: post) = validateSync' pre
  /\ skip (run' (pre ++ v :: post)) = true
  /\ invoked (run' (pre ++ v :: post)) = invoked (run' pre) ++ [List.length pre].
Proof.
  intros Hs Ho Hv He. unfold validateSync. rewrite run_app. simpl.
  rewrite (run_step_throws _ _ _ _ _ v e Hs Ho Hv).
  rewrite fold_halted by reflexivity. simpl.
  rewrite He, visited_run. auto.
Qed.

Lemma fold_invoked_in_scope l done st :
  visited st = List.length done ->
  (forall i, In i (invoked st) ->
     in_scope_at validationTypeToValidate (done ++ l) i) ->
  forall i, In i (invoked (fold_left run_step' l st)) ->
    in_scope_at validationTypeToValidate (done ++ l) i.
Proof.
  revert done st. induction l as [|v l IH]; intros done st Hv H; simpl; auto.
  replace (done ++ v :: l) with ((done ++ [v]) ++ l) in *
    by (rewrite <- app_assoc; reflexivity).
  apply IH.
  - rewrite visited_run_step, Hv, length_app. simpl. lia.
  - intros i Hi.
    assert (Hnew : out_of_scope' v = false ->
                   in_scope_at validationTypeToValidate ((done ++ [v]) ++ l)
                     (visited st)).
    { intros Ho. exists v. split; [|assumption].
      rewrite Hv, <- app_assoc. simpl. rewrite nth_error_app2 by lia.
      rewrite Nat.sub_diag. reflexivity. }
    destruct (run_step_cases st v) as [[_ E]|[(_ & Ho & r & _ & _ & E)
                                           |(_ & Ho & r & _ & _ & E & _)]];
      rewrite E in Hi; simpl in Hi; auto;
      apply in_app_or in Hi; destruct Hi as [Hi|[<-|[]]]; auto.
Qed.

(** X5: a run never calls a validator that the call leaves out: every
    position called holds a validation whose type is the one the call is
    restricted to. *)
Theorem run_calls_only_in_scope (vs : list ValidationConfig) (i : nat) :
  In i (invoked (run' vs)) ->
  exists v,
    nth_error vs i = Some v
    /\ out_of_scope' v = false
    /\ forall t, validationTypeToValidate = Some t ->
         match type v with
         | Some t' => t'
         | None => VALIDATION_TYPES_FIELD
         end = t.
Proof.
  intros Hi.
  destruct (fold_invoked_in_scope vs [] run_start eq_refl
              (fun i (H : In i []) => match H with end) i Hi) as (v & Hn & Ho).
  exists v. split; [exact Hn|]. split; [exact Ho|].
  intros t Ht. unfold out_of_scope in Ho. rewrite Ht in Ho.
  apply negb_false_iff, jsstring_eqb_eq in Ho. exact Ho.
Qed.

End MoreRunFacts.

Lemma run_error_count_witness :
  List.length
    (validateSync JNull (JStr []) None sample_path
       [taken_thrower None; required; too_short]) <= 1.
Proof.
  refine (proj2 (proj2 (run_error_count JNull (JStr []) None sample_path
                          [taken_thrower None; required; too_short])) _).
  intros v [<-|[<-|[<-|[]]]]; discriminate.
Defined.

Lemma falsy_throw_halts_silently_witness :
  validateSync JNull (JStr []) None sample_path
    ([passes] ++ validation_of (always_throws JUndefined) (Some false)
     :: [required])
  = validateSync JNull (JStr []) None sample_path [passes].
Proof.
  exact (proj1 (falsy_throw_halts_silently JNull (JStr []) None sample_path
                  [passes] [required]
                  (validation_of (always_throws JUndefined) (Some false))
                  JUndefined eq_refl eq_refl eq_refl eq_refl)).
Defined.


Lemma run_calls_only_in_scope_witness :
  exists v,
    nth_error [required; taken_thrower None] 0 = Some v
    /\ out_of_scope (Some VALIDATION_TYPES_FIELD) v = false
    /\ forall t, Some VALIDATION_TYPES_FIELD = Some t ->
         match type v with
         | Some t' => t'
         | None => VALIDATION_TYPES_FIELD
         end = t.
Proof.
  apply (run_calls_only_in_scope JNull (JStr []) (Some VALIDATION_TYPES_FIELD)
           sample_path [required; taken_thrower None] 0).
  left. reflexivity.
Defined.

(** ** The two halves of the state *)

Section Halves.

Variable toInt : jsval -> jsval.
Variable path : jsstring.
Variable config : FieldConfig.

Local Abbreviation step' := (step toInt path config).
Local Abbreviation run_events' := (run_events toInt path config).

Lemma ui_part_onValidationResult i t errs s :
  ui_part (fst (onValidationResult i t errs s)) = ui_part s.
Proof.
  unfold onValidationResult. simpl.
  destruct (i =? validateCounter s)%nat; reflexivity.
Qed.

Lemma ui_part_validate snapshot data s :
  ui_part (fst (validate path config snapshot data s)) = ui_part s.
Proof.
  unfold validate. destruct (isValidationAsync config); [reflexivity|].
  match goal with
  | |- context [onValidationResult ?i ?t ?e ?s0] =>
      pose proof (ui_part_onValidationResult i t e s0) as H;
      destruct (onValidationResult i t e s0) as [s1 r]
  end.
  exact H.
Qed.

Lemma ui_part_settle i s : ui_part (fst (settle i s)) = ui_part s.
Proof.
  unfold settle. destruct (find _ (pendingRuns s)) as [r|]; [|reflexivity].
  match goal with
  | |- context [onValidationResult ?i ?t ?e ?s0] =>
      pose proof (ui_part_onValidationResult i t e s0) as H;
      destruct (onValidationResult i t e s0) as [s1 r1]
  end.
  exact H.
Qed.

Lemma validation_part_onValueChange s :
  validation_part (onValueChange s) = validation_part s.
Proof.
  unfold onValueChange.
  destruct (isPristine s); simpl; destruct (debounceTimeout s); reflexivity.
Qed.

Lemma validation_part_setValue x s :
  validation_part (setValue toInt path config x s) = validation_part s.
Proof.
  unfold setValue, updateFormDataAt, setStateValue, validation_part.
  cbn [errors isValidating validateCounter pendingRuns].
  exact (validation_part_onValueChange s).
Qed.

(** X6: validation and value changes work on disjoint parts of the state.
    A call of [validate], the resolution of a run, [clearErrors] and
    [setErrors] change neither the value, nor the pristine and updating
    flags, nor the timers, nor what has been written to the form;
    [setValue], [onChange] and the expiry of a timer change neither the
    errors, nor the validating flag, nor the sequence counter, nor the runs
    in flight. *)
Theorem validation_and_value_are_separate (s : FieldState) (e : event) :
  (is_value_change e = false -> is_timer e = false ->
   ui_part (fst (step' s e)) = ui_part s)
  /\ (is_value_change e = true \/ is_timer e = true ->
      validation_part (fst (step' s e)) = validation_part s).
Proof.
  split.
  - intros Hc Ht. destruct e; try discriminate; cbn [step fst].
    + apply ui_part_validate.
    + apply ui_part_settle.
    + reflexivity.
    + reflexivity.
  - intros [H|H]; destruct e; try discriminate; cbn [step fst].
    + apply validation_part_setValue.
    + unfold onChange. apply validation_part_setValue.
    + unfold timer_expired. destruct (existsb _ _); reflexivity.
Qed.

End Halves.

Lemma validation_and_value_are_separate_witness :
  ui_part (fst (step sample_toInt sample_path async_config overlapped_state
                  (Settle 2)))
  = ui_part overlapped_state
  /\ validation_part (fst (step sample_toInt sample_path async_config
                             overlapped_state (SetValue JNull)))
     = validation_part overlapped_state.
Proof.
  split.
  - exact (proj1 (validation_and_value_are_separate sample_toInt sample_path
                    async_config overlapped_state (Settle 2))
             eq_refl eq_refl).
  - exact (proj2 (validation_and_value_are_separate sample_toInt sample_path
                    async_config overlapped_state (SetValue JNull))
             (or_introl eq_refl)).
Defined.

(** ** Sequence numbers *)

Lemma distinct_numbers_filter (keep : PendingRun -> bool) (runs : list PendingRun) :
  NoDup (map validateIteration runs) ->
  NoDup (map validateIteration (filter keep runs)).
Proof.
  intros H. induction runs as [|r runs IH]; [exact H|].
  cbn [map] in H. apply NoDup_cons_iff in H. destruct H as [Hr Hruns].
  cbn [filter]. destruct (keep r); [|exact (IH Hruns)].
  cbn [map]. apply NoDup_cons; [|exact (IH Hruns)].
  intros Hin. apply Hr. apply in_map_iff in Hin.
  destruct Hin as (r' & E & Hin'). apply filter_In in Hin'.
  apply in_map_iff. exists r'. tauto.
Qed.

Lemma filter_comm {A} (p q : A -> bool) (l : list A) :
  filter p (filter q l) = filter q (filter p l).
Proof.
  induction l as [|x l IH]; simpl; auto.
  destruct (p x) eqn:P, (q x) eqn:Q; simpl; rewrite ?P, ?Q, IH; reflexivity.
Qed.

Lemma settle_found i r s :
  find (has_iteration i) (pendingRuns s) = Some r ->
  settle i s
  = (let s1 :=
       set_pendingRuns
         (filter (fun r' => negb (has_iteration i r')) (pendingRuns s)) s in
     if (i =? validateCounter s)%nat
     then setErrors (fun _ => applied r s) (setValidating false s1)
     else s1,
     Some (response_of r)).
Proof.
  intros F. unfold settle. fold (has_iteration i). rewrite F.
  assert (Hr : validateIteration r = i).
  { apply find_some in F. destruct F as [_ F]. apply Nat.eqb_eq, F. }
  unfold onValidationResult. rewrite Hr. simpl.
  destruct (i =? validateCounter s)%nat; reflexivity.
Qed.

Section Numbering.

Variable toInt : jsval -> jsval.
Variable path : jsstring.
Variable config : FieldConfig.

Local Abbreviation step' := (step toInt path config).
Local Abbreviation run_events' := (run_events toInt path config).

Lemma step_well_numbered s e :
  well_numbered s -> well_numbered (fst (step' s e)).
Proof.
  intros [Hd Hb].
  assert (Hother : is_validate e = false -> (forall i, e <> Settle i) ->
                   well_numbered (fst (step' s e))).
  { intros H1 H2.
    destruct (other_events_state toInt path config s e H1 H2) as [Ec Ep].
    unfold well_numbered. rewrite Ec, Ep. split; assumption. }
  destruct e; try (apply Hother; [reflexivity | intros i; discriminate]).
  - cbn [step]. destruct (isValidationAsync config) eqn:A.
    + destruct (validate_async_state path config formSnapshot validationData s A)
        as [Ec Ep].
      unfold well_numbered. rewrite Ec, Ep. split.
      * rewrite map_app. apply NoDup_app; [assumption | |].
        -- simpl. constructor; [intros [] | constructor].
        -- intros a Ha [<-|[]]. apply in_map_iff in Ha.
           destruct Ha as (r & Hr & Hin). rewrite Forall_forall in Hb.
           specialize (Hb r Hin). simpl in Hr. lia.
      * apply Forall_app. split.
        -- eapply Forall_impl; [|exact Hb]. simpl. intros; lia.
        -- constructor; [simpl; lia | constructor].
    + destruct (validate_sync_state path config formSnapshot validationData s A)
        as [Ec Ep].
      unfold well_numbered. rewrite Ec, Ep. split; [assumption|].
      eapply Forall_impl; [|exact Hb]. simpl. intros; lia.
  - cbn [step]. destruct (settle_state iteration s) as [Ec Ep].
    unfold well_numbered. rewrite Ec, Ep. split.
    + apply distinct_numbers_filter. assumption.
    + apply Forall_forall. intros r Hr. apply filter_In in Hr.
      rewrite Forall_forall in Hb. apply Hb, Hr.
Qed.

Lemma run_events_counter es s :
  validateCounter (run_events' s es)
  = validateCounter s + List.length (filter is_validate es).
Proof.
  revert s. unfold run_events.
  induction es as [|e es IH]; intros s; simpl; [lia|].
  rewrite IH, step_counter. destruct (is_validate e); simpl; lia.
Qed.

Lemma run_events_sync_no_pending es s :
  isValidationAsync config = false ->
  pendingRuns s = [] -> pendingRuns (run_events' s es) = [].
Proof.
  intros A. revert s. unfold run_events.
  induction es as [|e es IH]; intros s H; simpl; auto.
  apply IH.
  destruct e;
    try (match goal with
         | |- context [step _ _ _ s ?e0] =>
             destruct (other_events_state toInt path config s e0 eq_refl
                         ltac:(intros ?; discriminate)) as [_ ->]
         end; assumption).
  - cbn [step].
    destruct (validate_sync_state path config formSnapshot validationData s A)
      as [_ ->]. assumption.
  - cbn [step]. destruct (settle_state iteration s) as [_ ->].
    rewrite H. reflexivity.
Qed.

(** X7: the sequence counter is the number of [validate] calls made so
    far, so each call gets a number larger than all earlier ones; the runs
    in flight carry pairwise distinct numbers between 1 and the counter; a
    synchronous field never has a run in flight. *)
Theorem sequence_numbers_count_validate_calls (es : list event) :
  validateCounter (run_events' (initial_state config) es)
  = List.length (filter is_validate es)
  /\ well_numbered (run_events' (initial_state config) es)
  /\ (isValidationAsync config = false ->
      pendingRuns (run_events' (initial_state config) es) = []).
Proof.
  split; [|split].
  - rewrite run_events_counter. reflexivity.
  - assert (H : forall l s, well_numbered s -> well_numbered (run_events' s l)).
    { unfold run_events. induction l as [|e l IH]; intros s Hs; simpl; auto.
      apply IH, step_well_numbered, Hs. }
    apply H. split; constructor.
  - intros A. apply run_events_sync_no_pending; [assumption | reflexivity].
Qed.

End Numbering.

(** X8: when two runs are in flight and the later one, B, is the most
    recent call, the two promises may resolve in either order: the final
    state is the same, its errors are those of B merged into the errors that
    were there, the validating flag is off, and each caller is answered the
    outcome of its own run. *)
Theorem latest_run_wins_in_either_order
    (a b : nat) (rA rB : PendingRun) (s : FieldState) :
  a <> b ->
  find (has_iteration a) (pendingRuns s) = Some rA ->
  find (has_iteration b) (pendingRuns s) = Some rB ->
  validateCounter s = b ->
  fst (settle b (fst (settle a s))) = fst (settle a (fst (settle b s)))
  /\ errors (fst (settle b (fst (settle a s)))) = applied rB s
  /\ isValidating (fst (settle b (fst (settle a s)))) = false
  /\ snd (settle a s) = Some (response_of rA)
  /\ snd (settle a (fst (settle b s))) = Some (response_of rA)
  /\ snd (settle b s) = Some (response_of rB)
  /\ snd (settle b (fst (settle a s))) = Some (response_of rB).
Proof.
  intros Hab FA FB Hc.
  assert (Na : (a =? b)%nat = false) by (apply Nat.eqb_neq; assumption).
  assert (Ea : settle a s
               = (set_pendingRuns
                    (filter (fun r' => negb (has_iteration a r')) (pendingRuns s))
                    s, Some (response_of rA))).
  { rewrite (settle_found a rA s FA). rewrite Hc, Na. reflexivity. }
  assert (Eb : settle b s
               = (setErrors (fun _ => applied rB s)
                    (setValidating false
                       (set_pendingRuns
                          (filter (fun r' => negb (has_iteration b r'))
                             (pendingRuns s)) s)),
                  Some (response_of rB))).
  { rewrite (settle_found b rB s FB). rewrite Hc, Nat.eqb_refl. reflexivity. }
  assert (FB' : find (has_iteration b)
                  (filter (fun r' => negb (has_iteration a r')) (pendingRuns s))
                = Some rB).
  { rewrite find_filter_other; [assumption|].
    intros x Hx. unfold has_iteration in *. apply Nat.eqb_eq in Hx.
    rewrite Hx, Nat.eqb_sym, Na. reflexivity. }
  assert (FA' : find (has_iteration a)
                  (filter (fun r' => negb (has_iteration b r')) (pendingRuns s))
                = Some rA).
  { rewrite find_filter_other; [assumption|].
    intros x Hx. unfold has_iteration in *. apply Nat.eqb_eq in Hx.
    rewrite Hx, Na. reflexivity. }
  rewrite Ea, Eb. cbn [fst snd].
  rewrite (settle_found b rB
             (set_pendingRuns
                (filter (fun r' => negb (has_iteration a r')) (pendingRuns s)) s)
             FB').
  rewrite (settle_found a rA
             (setErrors (fun _ => applied rB s)
                (setValidating false
                   (set_pendingRuns
                      (filter (fun r' => negb (has_iteration b r'))
                         (pendingRuns s)) s)))
             FA').
  cbn [fst snd]. unfold applied. simpl. rewrite Hc, Nat.eqb_refl, Na. simpl.
  repeat split; try reflexivity.
  unfold setErrors, setValidating, set_pendingRuns. simpl.
  f_equal. apply filter_comm.
Qed.

Lemma latest_run_wins_in_either_order_witness :
  fst (settle 2 (fst (settle 1 overlapped_state)))
  = fst (settle 1 (fst (settle 2 overlapped_state))).
Proof.
  refine (proj1 (latest_run_wins_in_either_order 1 2
                   {| validateIteration := 1; run_validationType := None;
                      run_errors := [field_error "field" "Field is required"] |}
                   {| validateIteration := 2; run_validationType := None;
                      run_errors := [] |}
                   overlapped_state _ _ _ _)).
  - discriminate.
  - vm_compute. reflexivity.
  - vm_compute. reflexivity.
  - vm_compute. reflexivity.
Defined.

Lemma sequence_numbers_count_validate_calls_witness :
  pendingRuns
    (run_events sample_toInt sample_path sync_config (initial_state sync_config)
       [Validate JNull no_data; SetValue JNull; Validate JNull field_data])
  = [].
Proof.
  exact (proj2 (proj2 (sequence_numbers_count_validate_calls sample_toInt
                         sample_path sync_config
                         [Validate JNull no_data; SetValue JNull;
                          Validate JNull field_data]))
           eq_refl).
Defined.

(** ** The flags *)

Section Flags.

Variable toInt : jsval -> jsval.
Variable path : jsstring.
Variable config : FieldConfig.

Local Abbreviation step' := (step toInt path config).
Local Abbreviation run_events' := (run_events toInt path config).

Lemma step_ui_part s e :
  is_value_change e = false -> is_timer e = false ->
  ui_part (fst (step' s e)) = ui_part s.
Proof.
  intros Hc Ht. destruct e; try discriminate; cbn [step fst];
    auto using ui_part_validate, ui_part_settle.
Qed.

Lemma step_validation_part s e :
  is_validate e = false -> (forall i, e <> Settle i) ->
  (forall t, e <> ClearErrors t) -> (forall l, e <> SetErrors l) ->
  validation_part (fst (step' s e)) = validation_part s.
Proof.
  intros Hv Hs Hc He. destruct e; try discriminate; cbn [step fst].
  - apply validation_part_setValue.
  - unfold onChange. apply validation_part_setValue.
  - exfalso. apply (Hs iteration). reflexivity.
  - exfalso. apply (Hc validationType). reflexivity.
  - exfalso. apply (He newErrors). reflexivity.
  - unfold timer_expired. destruct (existsb _ _); reflexivity.
Qed.

Lemma existsb_above (c : nat) (l : list PendingRun) :
  Forall (fun r => validateIteration r <= c) l ->
  existsb (has_iteration (S c)) l = false.
Proof.
  induction 1 as [|r l Hr _ IH]; simpl; auto.
  rewrite IH, orb_false_r. unfold has_iteration. apply Nat.eqb_neq. lia.
Qed.

Lemma existsb_filter_same (c : nat) (l : list PendingRun) :
  existsb (has_iteration c) (filter (fun r => negb (has_iteration c r)) l)
  = false.
Proof.
  induction l as [|r l IH]; simpl; auto.
  destruct (has_iteration c r) eqn:E; simpl; rewrite ?E, ?IH; reflexivity.
Qed.

Lemma existsb_filter_other (c i : nat) (l : list PendingRun) :
  i <> c ->
  existsb (has_iteration c) (filter (fun r => negb (has_iteration i r)) l)
  = existsb (has_iteration c) l.
Proof.
  intros Hne. induction l as [|r l IH]; simpl; auto.
  destruct (has_iteration i r) eqn:E; simpl; rewrite IH; auto.
  replace (has_iteration c r) with false; [reflexivity|].
  unfold has_iteration in *. apply Nat.eqb_eq in E. symmetry.
  apply Nat.eqb_neq. lia.
Qed.

Lemma isValidating_validate snapshot data s :
  isValidating (fst (validate path config snapshot data s))
  = isValidationAsync config.
Proof.
  unfold validate. destruct (isValidationAsync config); [reflexivity|].
  unfold onValidationResult. simpl. rewrite Nat.eqb_refl. reflexivity.
Qed.

Lemma step_validating s e :
  pending_bounded s ->
  isValidating s = existsb (has_iteration (validateCounter s)) (pendingRuns s) ->
  isValidating (fst (step' s e))
  = existsb (has_iteration (validateCounter (fst (step' s e))))
      (pendingRuns (fst (step' s e))).
Proof.
  intros Hb H.
  assert (Hsame : validation_part (fst (step' s e)) = validation_part s ->
                  isValidating (fst (step' s e))
                  = existsb (has_iteration (validateCounter (fst (step' s e))))
                      (pendingRuns (fst (step' s e)))).
  { unfold validation_part. intros E. inversion E as [[E1 E2 E3 E4]].
    rewrite E2, E3, E4. exact H. }
  destruct e;
    try (apply Hsame, step_validation_part;
         [reflexivity | intros ?; discriminate | intros ?; discriminate
          | intros ?; discriminate]).
  - cbn [step]. rewrite isValidating_validate.
    destruct (isValidationAsync config) eqn:A.
    + destruct (validate_async_state path config formSnapshot validationData s A)
        as [-> ->].
      rewrite existsb_app. simpl. unfold has_iteration at 2. simpl.
      rewrite Nat.eqb_refl, orb_true_r. reflexivity.
    + destruct (validate_sync_state path config formSnapshot validationData s A)
        as [-> ->].
      symmetry. apply existsb_above. exact Hb.
  - cbn [step]. destruct (settle_state iteration s) as [Ec Ep].
    rewrite Ec, Ep.
    destruct (find (has_iteration iteration) (pendingRuns s)) as [r|] eqn:F.
    + rewrite (settle_found iteration r s F). cbn [fst].
      destruct (iteration =? validateCounter s)%nat eqn:E.
      * apply Nat.eqb_eq in E. subst iteration. simpl.
        symmetry. apply existsb_filter_same.
      * apply Nat.eqb_neq in E. simpl.
        rewrite existsb_filter_other by assumption. exact H.
    + unfold settle. fold (has_iteration iteration). rewrite F. cbn [fst].
      rewrite H. symmetry.
      rewrite forallb_filter_id; [reflexivity|].
      apply forallb_forall. intros r Hr.
      rewrite (find_none _ _ F r Hr). reflexivity.
  - cbn [step fst]. exact H.
  - cbn [step fst]. exact H.
Qed.

(** X9: the validating flag is on exactly while the run of the most recent
    [validate] call is in flight.  On a synchronous field it is therefore
    off between any two operations. *)
Theorem validating_while_latest_run_in_flight (es : list event) :
  isValidating (run_events' (initial_state config) es)
  = existsb
      (has_iteration (validateCounter (run_events' (initial_state config) es)))
      (pendingRuns (run_events' (initial_state config) es))
  /\ (isValidationAsync config = false ->
      isValidating (run_events' (initial_state config) es) = false).
Proof.
  assert (H : forall l s,
            pending_bounded s ->
            isValidating s
            = existsb (has_iteration (validateCounter s)) (pendingRuns s) ->
            isValidating (run_events' s l)
            = existsb (has_iteration (validateCounter (run_events' s l)))
                (pendingRuns (run_events' s l))).
  { unfold run_events. induction l as [|e l IH]; intros s Hb Hs; simpl; auto.
    apply IH; [apply step_pending_bounded | apply step_validating]; assumption. }
  assert (E := H es (initial_state config) (Forall_nil _) eq_refl).
  split; [exact E|].
  intros A. rewrite E.
  rewrite (run_events_sync_no_pending toInt path config es
             (initial_state config) A eq_refl).
  reflexivity.
Qed.







Lemma timer_expired_value h s :
  value (timer_expired h s) = value s
  /\ formWrites (timer_expired h s) = formWrites s.
Proof. unfold timer_expired. destruct (existsb _ _); auto. Qed.

Lemma step_value_writes s e :
  is_value_change e = false ->
  value (fst (step' s e)) = value s
  /\ formWrites (fst (step' s e)) = formWrites s.
Proof.
  intros Hc. destruct (is_timer e) eqn:Ht.
  - destruct e; try discriminate. cbn [step fst]. apply timer_expired_value.
  - pose proof (step_ui_part s e Hc Ht) as E. unfold ui_part in E.
    inversion E as [[E1 E2 E3 E4 E5 E6 E7]]. auto.
Qed.

Lemma last_write_step s e :
  (formWrites s = [] \/
   exists fw w, formWrites s = fw ++ [(path, w)]
                /\ (value s <> JUndefined -> w = apply_serializer config (value s))) ->
  formWrites (fst (step' s e)) = [] \/
  exists fw w, formWrites (fst (step' s e)) = fw ++ [(path, w)]
               /\ (value (fst (step' s e)) <> JUndefined ->
                   w = apply_serializer config (value (fst (step' s e)))).
Proof.
  intros H.
  assert (Hset : forall x,
            exists fw w,
              formWrites (setValue toInt path config x s) = fw ++ [(path, w)]
              /\ (value (setValue toInt path config x s) <> JUndefined ->
                  w = apply_serializer config
                        (value (setValue toInt path config x s)))).
  { intros x. eexists. eexists. split.
    - unfold setValue, updateFormDataAt, setStateValue. cbn [formWrites].
      reflexivity.
    - unfold setValue, updateFormDataAt, setStateValue. cbn [value].
      unfold getOutputValue.
      destruct (runFormatters (hook_formatters toInt config) x);
        intros Hne; try reflexivity. congruence. }
  destruct (is_value_change e) eqn:Hc.
  - destruct e; try discriminate; cbn [step fst].
    + right. apply Hset.
    + right. unfold onChange. apply Hset.
  - destruct (step_value_writes s e Hc) as [-> ->]. exact H.
Qed.

Lemma form_writes_step s e :
  Forall (fun w => fst w = path) (formWrites s) ->
  Forall (fun w => fst w = path) (formWrites (fst (step' s e)))
  /\ List.length (formWrites (fst (step' s e)))
     = List.length (formWrites s) + (if is_value_change e then 1 else 0).
Proof.
  intros H.
  assert (Hset : forall x,
            formWrites (setValue toInt path config x s)
            = formWrites s
              ++ [(path,
                   getOutputValue config
                     (runFormatters (hook_formatters toInt config) x) s)]).
  { intros x. unfold setValue, updateFormDataAt, setStateValue.
    cbn [formWrites].
    unfold onValueChange.
    destruct (isPristine s); simpl; destruct (debounceTimeout s); reflexivity. }
  destruct (is_value_change e) eqn:Hc.
  - destruct e; try discriminate; cbn [step fst].
    + rewrite Hset, length_app. split; [|reflexivity].
      apply Forall_app. split; [assumption | repeat constructor].
    + unfold onChange. rewrite Hset, length_app. split; [|reflexivity].
      apply Forall_app. split; [assumption | repeat constructor].
  - destruct (step_value_writes s e Hc) as [_ ->]. split; [assumption | lia].
Qed.

(** X11: the form receives one write per value change, always at the path
    of the field; and whenever the value of the field is not undefined, the
    last write is the serializer applied to that value.  When the formatters
    produce undefined, the value becomes undefined but what is written is
    the serialized previous value. *)
Theorem form_writes_follow_the_value (es : list event) :
  Forall (fun w => fst w = path)
    (formWrites (run_events' (initial_state config) es))
  /\ List.length (formWrites (run_events' (initial_state config) es))
     = List.length (filter is_value_change es)
  /\ (formWrites (run_events' (initial_state config) es) <> [] ->
      value (run_events' (initial_state config) es) <> JUndefined ->
      last (formWrites (run_events' (initial_state config) es)) (path, JUndefined)
      = (path,
         apply_serializer config
           (value (run_events' (initial_state config) es))))
  /\ (forall x s,
        runFormatters (hook_formatters toInt config) x = JUndefined ->
        value (setValue toInt path config x s) = JUndefined
        /\ formWrites (setValue toInt path config x s)
           = formWrites s ++ [(path, apply_serializer config (value s))]).
Proof.
  assert (H1 : forall l s,
            Forall (fun w => fst w = path) (formWrites s) ->
            Forall (fun w => fst w = path) (formWrites (run_events' s l))
            /\ List.length (formWrites (run_events' s l))
               = List.length (formWrites s)
                 + List.length (filter is_value_change l)).
  { unfold run_events. induction l as [|e l IH]; intros s Hs; simpl.
    - split; [assumption | lia].
    - destruct (form_writes_step s e Hs) as [Ha Hb].
      destruct (IH _ Ha) as [Hc Hd]. split; [assumption|].
      rewrite Hd, Hb. destruct (is_value_change e); simpl; lia. }
  assert (H2 : forall l s,
            (formWrites s = [] \/
             exists fw w, formWrites s = fw ++ [(path, w)]
               /\ (value s <> JUndefined ->
                   w = apply_serializer config (value s))) ->
            formWrites (run_events' s l) = [] \/
            exists fw w, formWrites (run_events' s l) = fw ++ [(path, w)]
               /\ (value (run_events' s l) <> JUndefined ->
                   w = apply_serializer config (value (run_events' s l)))).
  { unfold run_events. induction l as [|e l IH]; intros s Hs; simpl; auto.
    apply IH, last_write_step, Hs. }
  destruct (H1 es (initial_state config) (Forall_nil _)) as [Ha Hb].
  split; [exact Ha|]. split; [exact Hb|]. split.
  - intros Hne Hv.
    destruct (H2 es (initial_state config) (or_introl eq_refl))
      as [E|(fw & w & E & Hw)]; [congruence|].
    rewrite E, last_last, (Hw Hv). reflexivity.
  - intros x s Hx. unfold setValue, updateFormDataAt, setStateValue.
    cbn [value formWrites]. rewrite Hx. split; [reflexivity|].
    unfold getOutputValue.
    unfold onValueChange.
    destruct (isPristine s); simpl; destruct (debounceTimeout s); reflexivity.
Qed.

End Flags.

Lemma validating_while_latest_run_in_flight_witness :
  isValidating
    (run_events sample_toInt sample_path sync_config (initial_state sync_config)
       [Validate JNull no_data; SetValue JNull])
  = false.
Proof.
  exact (proj2 (validating_while_latest_run_in_flight sample_toInt sample_path
                  sync_config [Validate JNull no_data; SetValue JNull])
           eq_refl).
Defined.


Lemma form_writes_follow_the_value_witness :
  last
    (formWrites
       (run_events sample_toInt sample_path sync_config
          (initial_state sync_config)
          [SetValue (JStr (lit "abc")); Validate JNull no_data]))
    (sample_path, JUndefined)
  = (sample_path,
     apply_serializer sync_config
       (value
          (run_events sample_toInt sample_path sync_config
             (initial_state sync_config)
             [SetValue (JStr (lit "abc")); Validate JNull no_data]))).
Proof.
  apply (proj1 (proj2 (proj2 (form_writes_follow_the_value sample_toInt
                                sample_path sync_config
                                [SetValue (JStr (lit "abc"));
                                 Validate JNull no_data])))).
  - vm_compute. discriminate.
  - vm_compute. discriminate.
Defined.

(** ** The algebra of [clearErrors] *)

Lemma filterErrors_app (l : list object) (ts1 ts2 : list jsstring) :
  filterErrors l (Some (ManyTypes (ts1 ++ ts2)))
  = filterErrors (filterErrors l (Some (ManyTypes ts1))) (Some (ManyTypes ts2)).
Proof.
  unfold filterErrors. induction l as [|e l IH]; simpl; auto.
  rewrite forallb_app.
  destruct (forallb _ ts1) eqn:E1; simpl.
  - destruct (forallb _ ts2); rewrite IH; reflexivity.
  - exact IH.
Qed.

Lemma filterErrors_types (l : list object) (f : type_filter) :
  filterErrors l (Some f) = filterErrors l (Some (ManyTypes (types_of f))).
Proof. destruct f; reflexivity. Qed.

Lemma filterErrors_comm (l : list object) (f g : option type_filter) :
  filterErrors (filterErrors l f) g = filterErrors (filterErrors l g) f.
Proof. unfold filterErrors. apply filter_comm. Qed.

Lemma filter_idem {A} (p : A -> bool) (l : list A) :
  filter p (filter p l) = filter p l.
Proof.
  induction l as [|x l IH]; simpl; auto.
  destruct (p x) eqn:P; simpl; rewrite ?P, IH; reflexivity.
Qed.

(** X12: clearing an array of types is clearing its types one after the
    other, in any order, and clearing twice is clearing once.  In
    particular the clearing an asynchronous run starts with is
    [clearErrors('field')] followed by [clearErrors('async')]. *)
Theorem clearErrors_composes (s : FieldState) (f g : type_filter) :
  clearErrors (Some (ManyTypes (types_of f ++ types_of g))) s
  = clearErrors (Some g) (clearErrors (Some f) s)
  /\ clearErrors (Some g) (clearErrors (Some f) s)
     = clearErrors (Some f) (clearErrors (Some g) s)
  /\ clearErrors (Some f) (clearErrors (Some f) s) = clearErrors (Some f) s
  /\ clearErrors
       (Some (ManyTypes [VALIDATION_TYPES_FIELD; VALIDATION_TYPES_ASYNC])) s
     = clearErrors (Some (OneType VALIDATION_TYPES_ASYNC)) (clearErrors None s).
Proof.
  unfold clearErrors, setErrors. simpl. repeat split; f_equal.
  - rewrite filterErrors_app, <- !filterErrors_types. reflexivity.
  - apply filterErrors_comm.
  - unfold filterErrors. apply filter_idem.
  - apply (filterErrors_app (errors s) [VALIDATION_TYPES_FIELD]
             [VALIDATION_TYPES_ASYNC]).
Qed.

(** X13: [clearErrors] with an empty array of types changes nothing,
    whereas without an argument it clears the field errors; and whatever
    its argument it only removes errors: what is left was there before, in
    the same order. *)
Theorem clearErrors_only_removes (t : option type_filter) (s : FieldState) :
  clearErrors (Some (ManyTypes [])) s = s
  /\ clearErrors None s = clearErrors (Some (OneType VALIDATION_TYPES_FIELD)) s
  /\ (forall e, In e (errors (clearErrors t s)) -> In e (errors s))
  /\ List.length (errors (clearErrors t s)) <= List.length (errors s)
  /\ exists keep, errors (clearErrors t s) = filter keep (errors s).
Proof.
  split; [|split; [|split; [|split]]].
  - unfold clearErrors, setErrors, filterErrors. simpl.
    rewrite filter_true. destruct s; reflexivity.
  - reflexivity.
  - intros e He. unfold clearErrors in He. simpl in He.
    apply In_filterErrors in He. tauto.
  - unfold clearErrors, filterErrors. simpl. apply filter_length_le.
  - eexists. unfold clearErrors, filterErrors. simpl. reflexivity.
Qed.

Lemma clearErrors_only_removes_witness :
  In (field_error "async" "Taken")
    (errors (with_errors [field_error "async" "Taken"] sync_config)).
Proof.
  apply (proj1 (proj2 (proj2 (clearErrors_only_removes None
                                (with_errors [field_error "async" "Taken"]
                                   sync_config))))).
  left. reflexivity.
Defined.

(** ** Messages and types *)

Section MessagesAndTypes.

Variable ToString : jsval -> jsstring.

Local Abbreviation reducer t :=
  (fun messages error =>
     if error_matches t error
     then
       if truthy messages
       then JStr (ToString messages ++ lit ", " ++ ToString (get error key_message))
       else get error key_message
     else messages).

Lemma fold_messages_matching (t : jsstring) (errs : list object) (acc : jsval) :
  fold_left (reducer t) errs acc
  = fold_left (reducer t) (filter (error_matches t) errs) acc.
Proof.
  revert acc. induction errs as [|e errs IH]; intros acc; cbn [fold_left filter].
  - reflexivity.
  - destruct (error_matches t e) eqn:M; cbn [fold_left]; rewrite ?M; apply IH.
Qed.

Lemma getErrorsMessages_matching (errs : list object) (t : option jsstring) :
  getErrorsMessages ToString errs t
  = getErrorsMessages ToString (matching_errors t errs) t.
Proof.
  unfold getErrorsMessages, matching_errors. fold (addressed_type t).
  rewrite (fold_messages_matching (addressed_type t) errs).
  rewrite (fold_messages_matching (addressed_type t)
             (filter (error_matches (addressed_type t)) errs)).
  rewrite filter_idem. reflexivity.
Qed.

(** X14: [getErrorsMessages t] depends on the errors that match [t] only:
    two error lists with the same matching errors give the same text, so
    adding, removing or changing errors of other types never changes it. *)
Theorem getErrorsMessages_reads_matching_only
    (errs errs' : list object) (t : option jsstring) :
  matching_errors t errs = matching_errors t errs' ->
  getErrorsMessages ToString errs t = getErrorsMessages ToString errs' t.
Proof.
  intros H.
  rewrite (getErrorsMessages_matching errs), (getErrorsMessages_matching errs'), H.
  reflexivity.
Qed.

Lemma has_type_not_untyped (t : jsstring) (e : object) :
  strict_eq_string (get e key_validationType) t = true -> untyped e = false.
Proof.
  unfold untyped, hasOwnProperty, get.
  destruct (lookup key_validationType e); [reflexivity | discriminate].
Qed.

Lemma matching_after_clear (t : jsstring) (errs : list object) :
  filter (error_matches t) (filterErrors errs (Some (OneType t)))
  = if jsstring_eqb t VALIDATION_TYPES_FIELD then filter untyped errs else [].
Proof.
  rewrite filterErrors_one.
  induction errs as [|e errs IH]; cbn [filter].
  - destruct (jsstring_eqb t VALIDATION_TYPES_FIELD); reflexivity.
  - destruct (strict_eq_string (get e key_validationType) t) eqn:E;
      cbn [negb filter].
    + rewrite IH, (has_type_not_untyped t e E). reflexivity.
    + unfold error_matches at 1. fold (untyped e). rewrite E, IH.
      destruct (jsstring_eqb t VALIDATION_TYPES_FIELD); cbn [orb andb];
        [|reflexivity].
      destruct (untyped e); reflexivity.
Qed.

(** X15: right after [clearErrors t], [getErrorsMessages t] is null for
    every type [t] other than the field type.  For the field type it is
    the text of the errors without a [validationType] property, the only
    field errors [clearErrors] leaves. *)
Theorem getErrorsMessages_after_clearErrors (t : option jsstring) (s : FieldState) :
  (addressed_type t <> VALIDATION_TYPES_FIELD ->
   getErrorsMessages ToString (errors (clearErrors (option_map OneType t) s)) t
   = JNull)
  /\ (addressed_type t = VALIDATION_TYPES_FIELD ->
      getErrorsMessages ToString (errors (clearErrors (option_map OneType t) s)) t
      = getErrorsMessages ToString (filter untyped (errors s)) t).
Proof.
  assert (E : errors (clearErrors (option_map OneType t) s)
              = filterErrors (errors s) (Some (OneType (addressed_type t)))).
  { destruct t; reflexivity. }
  rewrite E. split; intros H.
  - rewrite getErrorsMessages_matching. unfold matching_errors.
    rewrite matching_after_clear.
    apply jsstring_eqb_neq in H. rewrite H.
    unfold getErrorsMessages. reflexivity.
  - rewrite (getErrorsMessages_matching (filterErrors _ _)).
    unfold matching_errors. rewrite matching_after_clear.
    apply jsstring_eqb_eq in H. rewrite H. reflexivity.
Qed.

End MessagesAndTypes.

Lemma getErrorsMessages_reads_matching_only_witness :
  getErrorsMessages sample_ToString
    [field_error "field" "Required"; field_error "async" "Taken"] None
  = getErrorsMessages sample_ToString [field_error "field" "Required"] None.
Proof.
  apply (getErrorsMessages_reads_matching_only sample_ToString
           [field_error "field" "Required"; field_error "async" "Taken"]
           [field_error "field" "Required"] None).
  reflexivity.
Defined.

Lemma getErrorsMessages_after_clearErrors_witness :
  getErrorsMessages sample_ToString
    (errors (clearErrors (option_map OneType (Some VALIDATION_TYPES_ASYNC))
               two_errors_state))
    (Some VALIDATION_TYPES_ASYNC)
  = JNull.
Proof.
  apply (proj1 (getErrorsMessages_after_clearErrors sample_ToString
                  (Some VALIDATION_TYPES_ASYNC) two_errors_state)).
  vm_compute. discriminate.
Defined.

(** ** Validating one type *)

Lemma type_tag_in_scope (t : jsstring) (v : ValidationConfig) :
  t <> [] -> out_of_scope (Some t) v = false -> type_tag v = t.
Proof.
  intros Ht Ho. unfold out_of_scope in Ho.
  apply negb_false_iff, jsstring_eqb_eq in Ho.
  unfold type_tag. destruct (type v) as [[|c u]|]; auto. congruence.
Qed.

Lemma restricted_run_typed formData valueToValidate path t vs :
  t <> [] ->
  Forall (fun e => has_type t e = true)
    (validateSync formData valueToValidate (Some t) path vs).
Proof.
  intros Ht.
  assert (H : Forall (produced_by (Some t) vs)
                (validateSync formData valueToValidate (Some t) path vs)).
  { apply fold_produced; [apply incl_refl | constructor]. }
  eapply Forall_impl; [|exact H].
  intros e (v & r & _ & Ho & _ & ->).
  unfold has_type, validation_error, get.
  rewrite lookup_set_prop_same, (type_tag_in_scope t v Ht Ho).
  simpl. apply jsstring_eqb_refl.
Qed.

Lemma filter_all {A} (p : A -> bool) (l : list A) :
  Forall (fun x => p x = true) l -> filter p l = l.
Proof.
  induction 1 as [|x l Hx _ IH]; simpl; auto. rewrite Hx, IH. reflexivity.
Qed.

Lemma filter_none {A} (p : A -> bool) (l : list A) :
  Forall (fun x => p x = true) l -> filter (fun x => negb (p x)) l = [].
Proof.
  induction 1 as [|x l Hx _ IH]; simpl; auto. rewrite Hx. exact IH.
Qed.

Lemma filter_negb_filter {A} (p : A -> bool) (l : list A) :
  filter p (filter (fun x => negb (p x)) l) = [].
Proof.
  induction l as [|x l IH]; simpl; auto.
  destruct (p x) eqn:P; simpl; rewrite ?P; auto.
Qed.

(** X16: on a synchronous field, [validate] restricted to a (non-empty)
    type [t] replaces the errors of type [t] by those of the run and
    leaves the other errors as they are; it answers the outcome of the
    run; and calling it again on the same value changes nothing. *)
Theorem restricted_validate_replaces_its_type
    (path : jsstring) (config : FieldConfig) (formSnapshot : jsval)
    (t : jsstring) (s : FieldState) :
  isValidationAsync config = false ->
  t <> [] ->
  filter (has_type t)
    (errors (fst (validate path config formSnapshot (typed_data t) s)))
  = run_errors (started_run path config s formSnapshot (typed_data t))
  /\ filter (fun e => negb (has_type t e))
       (errors (fst (validate path config formSnapshot (typed_data t) s)))
     = filter (fun e => negb (has_type t e)) (errors s)
  /\ snd (validate path config formSnapshot (typed_data t) s)
     = Some (response_of (started_run path config s formSnapshot (typed_data t)))
  /\ errors
       (fst (validate path config formSnapshot (typed_data t)
               (fst (validate path config formSnapshot (typed_data t) s))))
     = errors (fst (validate path config formSnapshot (typed_data t) s)).
Proof.
  intros A Ht.
  set (R := run_errors (started_run path config s formSnapshot (typed_data t))).
  assert (HR : Forall (fun e => has_type t e = true) R).
  { apply restricted_run_typed. assumption. }
  assert (E : forall s0,
            value s0 = value s ->
            errors (fst (validate path config formSnapshot (typed_data t) s0))
            = filter (fun e => negb (has_type t e)) (errors s0) ++ R).
  { intros s0 Hv. unfold validate. rewrite A. unfold onValidationResult.
    simpl. rewrite Nat.eqb_refl. simpl. rewrite filterErrors_one, Hv.
    reflexivity. }
  assert (V : value (fst (validate path config formSnapshot (typed_data t) s))
              = value s).
  { pose proof (ui_part_validate path config formSnapshot (typed_data t) s) as U.
    unfold ui_part in U. inversion U as [[U1 U2 U3 U4 U5 U6 U7]]. reflexivity. }
  rewrite (E _ V), (E s eq_refl).
  split; [|split; [|split]].
  - rewrite filter_app, filter_negb_filter, (filter_all _ _ HR). reflexivity.
  - rewrite filter_app, filter_idem, (filter_none _ _ HR), app_nil_r.
    reflexivity.
  - unfold validate. rewrite A. unfold onValidationResult. reflexivity.
  - rewrite filter_app, filter_idem, (filter_none _ _ HR), app_nil_r.
    reflexivity.
Qed.

Lemma restricted_validate_replaces_its_type_witness :
  filter (has_type VALIDATION_TYPES_FIELD)
    (errors (fst (validate sample_path sync_config JNull
                    (typed_data VALIDATION_TYPES_FIELD) two_errors_state)))
  = run_errors (started_run sample_path sync_config two_errors_state JNull
                  (typed_data VALIDATION_TYPES_FIELD)).
Proof.
  apply (restricted_validate_replaces_its_type sample_path sync_config JNull
           VALIDATION_TYPES_FIELD two_errors_state eq_refl).
  vm_compute. discriminate.
Defined.

(** ** The pages of the network adapter *)

Module NetworkFacts.
Import Network.

Lemma firstn_clamp {A} (n : nat) (l : list A) :
  firstn (Nat.min n (List.length l)) l = firstn n l.
Proof.
  destruct (Nat.le_gt_cases n (List.length l)) as [H|H].
  - rewrite Nat.min_l by assumption. reflexivity.
  - rewrite Nat.min_r by lia.
    rewrite !firstn_all2 by lia. reflexivity.
Qed.

Lemma splice_window {A} (l : list A) (a b : Z) :
  (0 <= a)%Z -> splice l a (b - a) = window a b l.
Proof.
  intros Ha. unfold splice, window. cbv zeta.
  replace (a <? 0)%Z with false by (symmetry; apply Z.ltb_ge; assumption).
  destruct (Z_le_gt_dec a (Z.of_nat (List.length l))) as [H|H].
  - rewrite (Z.min_l a (Z.of_nat (List.length l)) H).
    rewrite <- (firstn_clamp (Z.to_nat (b - a))).
    f_equal. rewrite length_skipn. lia.
  - rewrite (Z.min_r a (Z.of_nat (List.length l))) by lia. rewrite Nat2Z.id.
    rewrite !skipn_all2 by lia. rewrite !firstn_nil. reflexivity.
Qed.

Lemma window_map {A B} (f : A -> B) (a b : Z) (l : list A) :
  window a b (map f l) = map f (window a b l).
Proof. unfold window. rewrite skipn_map, firstn_map. reflexivity. Qed.

Lemma firstn_add {A} (n m : nat) (l : list A) :
  firstn (n + m) l = firstn n l ++ firstn m (skipn n l).
Proof.
  revert l. induction n as [|n IH]; intros [|x l]; simpl;
    rewrite ?firstn_nil; auto.
  rewrite IH. reflexivity.
Qed.

Lemma window_tile {A} (a b c : Z) (l : list A) :
  (0 <= a <= b)%Z -> (b <= c)%Z ->
  window a b l ++ window b c l = window a c l.
Proof.
  intros Hab Hbc. unfold window.
  replace (Z.to_nat (c - a)) with (Z.to_nat (b - a) + Z.to_nat (c - b)) by lia.
  rewrite firstn_add, skipn_skipn.
  replace (Z.to_nat (b - a) + Z.to_nat a) with (Z.to_nat b) by lia.
  reflexivity.
Qed.

Lemma edges_getNetworkDns (r : DnsResponse) (p : PaginationInput) :
  (0 <= cursorStart p)%Z ->
  edges (getNetworkDns r p)
  = formatDnsEdges
      (window (cursorStart p) (querySize p) (getOr [] (dns_name_query_count r))).
Proof.
  intros H. unfold getNetworkDns, page. cbn [edges].
  rewrite splice_window by assumption.
  unfold formatDnsEdges. apply window_map.
Qed.

(** X17: for a cursor that is not negative, the page of a DNS query holds
    the buckets from position [cursorStart] up to, not including, position
    [querySize], formatted, in their order: at most [querySize -
    cursorStart] edges, none when [querySize] is not above [cursorStart];
    and every edge has the key of its bucket as id, as name and as
    cursor. *)
Theorem dns_page_is_a_window (r : DnsResponse) (p : PaginationInput) :
  (0 <= cursorStart p)%Z ->
  edges (getNetworkDns r p)
  = formatDnsEdges
      (window (cursorStart p) (querySize p) (getOr [] (dns_name_query_count r)))
  /\ (Z.of_nat (List.length (edges (getNetworkDns r p)))
      <= Z.max 0 (querySize p - cursorStart p))%Z
  /\ Forall
       (fun e =>
          cursor_value (dns_cursor e) = dns_id (dns_node e)
          /\ dnsName (dns_node e) = dns_id (dns_node e)
          /\ tiebreaker (dns_cursor e) = None)
       (edges (getNetworkDns r p)).
Proof.
  intros H. rewrite (edges_getNetworkDns r p H).
  split; [reflexivity|]. split.
  - unfold formatDnsEdges, window. rewrite length_map.
    pose proof (firstn_le_length (Z.to_nat (querySize p - cursorStart p))
                  (skipn (Z.to_nat (cursorStart p))
                     (getOr [] (dns_name_query_count r)))).
    lia.
  - unfold formatDnsEdges. apply Forall_forall. intros e He.
    apply in_map_iff in He. destruct He as (bucket & <- & _). simpl. auto.
Qed.

(** X18: consecutive pages of a DNS answer tile it: the page from [a] to
    [b] followed by the page from [b] to [c] is the page from [a] to
    [c]. *)
Theorem dns_pages_tile (r : DnsResponse) (p : PaginationInput) (a b c : Z) :
  (0 <= a <= b)%Z -> (b <= c)%Z ->
  edges (getNetworkDns r (with_window a b p))
  ++ edges (getNetworkDns r (with_window b c p))
  = edges (getNetworkDns r (with_window a c p)).
Proof.
  intros Hab Hbc.
  rewrite !edges_getNetworkDns by (simpl; lia). simpl.
  unfold formatDnsEdges. rewrite <- map_app, window_tile by assumption.
  reflexivity.
Qed.

(** X19: the total count of a page is the count the response gives, 0
    when it gives none; the fake total count is the smaller of the total
    count and the possible count asked for; and more pages are announced
    exactly when the possible count is below the total count.  None of
    them depends on the cursor or the query size. *)
Theorem dns_page_info (r : DnsResponse) (p : PaginationInput) :
  totalCount (getNetworkDns r p) = getOr 0%Z (dns_count r)
  /\ fakeTotalCount (pageInfo (getNetworkDns r p))
     = Z.min (fakePossibleCount p) (totalCount (getNetworkDns r p))
  /\ (showMorePagesIndicator (pageInfo (getNetworkDns r p)) = true
      <-> (fakePossibleCount p < totalCount (getNetworkDns r p))%Z)
  /\ (forall a b,
        pageInfo (getNetworkDns r (with_window a b p))
        = pageInfo (getNetworkDns r p)
        /\ totalCount (getNetworkDns r (with_window a b p))
           = totalCount (getNetworkDns r p)).
Proof.
  unfold getNetworkDns, page. cbn [totalCount pageInfo fakeTotalCount
                                   showMorePagesIndicator].
  split; [reflexivity|]. split; [|split].
  - destruct (Z.leb_spec (fakePossibleCount p) (getOr 0%Z (dns_count r))); lia.
  - destruct (Z.leb_spec (fakePossibleCount p) (getOr 0%Z (dns_count r)));
      rewrite Z.ltb_lt; lia.
  - intros a b. split; reflexivity.
Qed.

Section TopNFlowFacts.

Variable DEFAULT_MAX_TABLE_QUERY_SIZE : Z.
Variable FlowTarget : Type.

Local Abbreviation getNetworkTopNFlow' :=
  (getNetworkTopNFlow DEFAULT_MAX_TABLE_QUERY_SIZE FlowTarget).

(** X20: the top-N-flow query fails exactly when the query size reaches
    the maximum table query size, whatever the response; below it, for a
    cursor that is not negative, its page is the window of the buckets of
    the direction asked for (the bidirectional ones unless the direction is
    unidirectional), formatted for the flow target asked for. *)
Theorem top_n_flow_query_size_guard
    (r : TopNFlowResponse) (o : NetworkTopNFlowRequestOptions FlowTarget) :
  ((DEFAULT_MAX_TABLE_QUERY_SIZE <= querySize (pagination FlowTarget o))%Z ->
   getNetworkTopNFlow' r o = inl (NoQuerySizeAbove DEFAULT_MAX_TABLE_QUERY_SIZE))
  /\ ((querySize (pagination FlowTarget o) < DEFAULT_MAX_TABLE_QUERY_SIZE)%Z ->
      (0 <= cursorStart (pagination FlowTarget o))%Z ->
      exists data,
        getNetworkTopNFlow' r o = inr data
        /\ edges data
           = formatTopNFlowEdges FlowTarget
               (window (cursorStart (pagination FlowTarget o))
                  (querySize (pagination FlowTarget o))
                  (getOr []
                     match flowDirection FlowTarget o with
                     | uniDirectional => top_uni_flow r
                     | biDirectional => top_bi_flow r
                     end))
               (flowTarget FlowTarget o)
        /\ totalCount data = getOr 0%Z (top_n_flow_count r)
        /\ Forall
             (fun e =>
                target FlowTarget (flow_node FlowTarget e)
                = flowTarget FlowTarget o
                /\ cursor_value (flow_cursor FlowTarget e)
                   = flow_id FlowTarget (flow_node FlowTarget e))
             (edges data)).
Proof.
  unfold getNetworkTopNFlow, getTopNFlowEdges. split.
  - intros H. apply Z.leb_le in H. rewrite H. reflexivity.
  - intros H Hc. apply Z.leb_gt in H. rewrite H.
    assert (E : forall buckets,
              edges (page (getOr 0%Z (top_n_flow_count r))
                       (formatTopNFlowEdges FlowTarget buckets
                          (flowTarget FlowTarget o))
                       (pagination FlowTarget o))
              = formatTopNFlowEdges FlowTarget
                  (window (cursorStart (pagination FlowTarget o))
                     (querySize (pagination FlowTarget o)) buckets)
                  (flowTarget FlowTarget o)).
    { intros buckets. unfold page. cbn [edges].
      rewrite splice_window by assumption.
      unfold formatTopNFlowEdges. apply window_map. }
    assert (F : forall buckets,
              Forall
                (fun e =>
                   target FlowTarget (flow_node FlowTarget e)
                   = flowTarget FlowTarget o
                   /\ cursor_value (flow_cursor FlowTarget e)
                      = flow_id FlowTarget (flow_node FlowTarget e))
                (formatTopNFlowEdges FlowTarget buckets
                   (flowTarget FlowTarget o))).
    { intros buckets. unfold formatTopNFlowEdges. apply Forall_forall.
      intros e He. apply in_map_iff in He. destruct He as (b & <- & _).
      simpl. auto. }
    destruct (flowDirection FlowTarget o); eexists;
      (split; [reflexivity|]); rewrite E;
      (split; [reflexivity|]); (split; [reflexivity|]); apply F.
Qed.

End TopNFlowFacts.

Lemma dns_page_is_a_window_witness :
  edges (getNetworkDns sample_response sample_pagination)
  = formatDnsEdges [sample_bucket "a" 1; sample_bucket "b" 2].
Proof.
  exact (proj1 (dns_page_is_a_window sample_response sample_pagination
                  ltac:(discriminate))).
Defined.

Lemma dns_pages_tile_witness :
  edges (getNetworkDns sample_response (with_window 0 1 sample_pagination))
  ++ edges (getNetworkDns sample_response (with_window 1 3 sample_pagination))
  = edges (getNetworkDns sample_response (with_window 0 3 sample_pagination)).
Proof.
  apply (dns_pages_tile sample_response sample_pagination 0 1 3); lia.
Defined.

Lemma dns_page_info_witness :
  showMorePagesIndicator (pageInfo (getNetworkDns sample_response sample_pagination))
  = true.
Proof.
  apply (proj2 (proj1 (proj2 (proj2 (dns_page_info sample_response
                                       sample_pagination))))).
  vm_compute. reflexivity.
Defined.

Lemma top_n_flow_query_size_guard_witness :
  getNetworkTopNFlow 10000 unit sample_flow_response
    {| flowDirection := uniDirectional; flowTarget := tt;
       pagination := with_window 0 10000 sample_pagination |}
  = inl (NoQuerySizeAbove 10000).
Proof.
  apply (proj1 (top_n_flow_query_size_guard 10000 unit sample_flow_response
                  {| flowDirection := uniDirectional; flowTarget := tt;
                     pagination := with_window 0 10000 sample_pagination |})).
  vm_compute. discriminate.
Defined.

End NetworkFacts.

(** ** Validating every type *)

Lemma filterErrors_app_list (l1 l2 : list object) (f : option type_filter) :
  filterErrors (l1 ++ l2) f = filterErrors l1 f ++ filterErrors l2 f.
Proof. unfold filterErrors. apply filter_app. Qed.

Lemma filterErrors_idem (l : list object) (f : option type_filter) :
  filterErrors (filterErrors l f) f = filterErrors l f.
Proof. unfold filterErrors. apply filter_idem. Qed.

(** X21: on a synchronous field, [validate] without a validation type runs
    the validations of every type but clears the field errors only.
    Called twice on the same value, it leaves the errors as after the first
    call exactly when the run produced field errors only; otherwise the
    errors of the other types are in the list once more. *)
Theorem unrestricted_validate_repeats_other_types
    (path : jsstring) (config : FieldConfig) (formSnapshot : jsval)
    (s : FieldState) :
  isValidationAsync config = false ->
  errors
    (fst (validate path config formSnapshot no_data
            (fst (validate path config formSnapshot no_data s))))
  = filterErrors (errors s) None
    ++ filterErrors
         (run_errors (started_run path config s formSnapshot no_data)) None
    ++ run_errors (started_run path config s formSnapshot no_data)
  /\ (errors
        (fst (validate path config formSnapshot no_data
                (fst (validate path config formSnapshot no_data s))))
      = errors (fst (validate path config formSnapshot no_data s))
      <-> filterErrors
            (run_errors (started_run path config s formSnapshot no_data)) None
          = []).
Proof.
  intros A.
  set (R := run_errors (started_run path config s formSnapshot no_data)).
  assert (E : forall s0,
            value s0 = value s ->
            errors (fst (validate path config formSnapshot no_data s0))
            = filterErrors (errors s0) None ++ R).
  { intros s0 Hv. unfold validate. rewrite A. unfold onValidationResult.
    simpl. rewrite Nat.eqb_refl. simpl. rewrite Hv. reflexivity. }
  assert (V : value (fst (validate path config formSnapshot no_data s))
              = value s).
  { pose proof (ui_part_validate path config formSnapshot no_data s) as U.
    unfold ui_part in U. inversion U as [[U1 U2 U3 U4 U5 U6 U7]]. reflexivity. }
  rewrite (E _ V), (E s eq_refl).
  rewrite filterErrors_app_list, filterErrors_idem, <- app_assoc.
  split; [reflexivity|]. split.
  - intros H. apply app_inv_head in H.
    apply (f_equal (@List.length object)) in H. rewrite length_app in H.
    destruct (filterErrors R None); [reflexivity | simpl in H; lia].
  - intros ->. reflexivity.
Qed.

Lemma unrestricted_validate_repeats_other_types_witness :
  errors
    (fst (validate sample_path sync_config JNull no_data
            (fst (validate sample_path sync_config JNull no_data
                    two_errors_state))))
  = errors (fst (validate sample_path sync_config JNull no_data two_errors_state)).
Proof.
  apply (proj2 (unrestricted_validate_repeats_other_types sample_path
                  sync_config JNull two_errors_state eq_refl)).
  vm_compute. reflexivity.
Defined.

(** ** The order of the calls *)

Section CallOrder.

Variables formData valueToValidate : jsval.
Variable validationTypeToValidate : option jsstring.
Variable path : jsstring.

Local Abbreviation run_step' :=
  (run_step formData valueToValidate validationTypeToValidate path).
Local Abbreviation run' :=
  (run_validations formData valueToValidate validationTypeToValidate path).

Lemma StronglySorted_snoc (l : list nat) (x : nat) :
  StronglySorted lt l -> Forall (fun i => i < x) l ->
  StronglySorted lt (l ++ [x]).
Proof.
  induction 1 as [|a l Hl IH Ha]; intros Hx; simpl.
  - repeat constructor.
  - inversion Hx; subst. constructor; [auto|].
    apply Forall_app. split; [assumption | repeat constructor; assumption].
Qed.

Lemma fold_invoked_sorted l st :
  StronglySorted lt (invoked st) ->
  Forall (fun i => i < visited st) (invoked st) ->
  StronglySorted lt (invoked (fold_left run_step' l st))
  /\ Forall (fun i => i < visited st + List.length l)
       (invoked (fold_left run_step' l st)).
Proof.
  revert st. induction l as [|v l IH]; intros st Hs Hb; simpl.
  - rewrite Nat.add_0_r. auto.
  - replace (visited st + S (List.length l))
      with (visited (run_step' st v) + List.length l)
      by (rewrite visited_run_step; lia).
    assert (Hb' : Forall (fun i => i < S (visited st)) (invoked st)).
    { eapply Forall_impl; [|exact Hb]. simpl. intros; lia. }
    apply IH; rewrite ?visited_run_step;
      destruct (run_step_cases formData valueToValidate
                  validationTypeToValidate path st v)
        as [[_ E]|[(_ & _ & r & _ & _ & E)|(_ & _ & r & _ & _ & E & _)]];
      rewrite E; simpl; auto;
      try (apply StronglySorted_snoc; assumption);
      try (apply Forall_app; split; [assumption | repeat constructor]).
Qed.

(** X22: the validators are called in the declared order and each of them
    at most once: the positions called, in call order, are strictly
    increasing. *)
Theorem validators_run_in_declared_order (vs : list ValidationConfig) :
  StronglySorted lt (invoked (run' vs))
  /\ NoDup (invoked (run' vs))
  /\ Forall (fun i => i < List.length vs) (invoked (run' vs)).
Proof.
  destruct (fold_invoked_sorted vs run_start (SSorted_nil _) (Forall_nil _))
    as [H1 H2].
  split; [exact H1|]. split; [|exact H2].
  fold (run' vs) in H1.
  induction H1 as [|a l Hl IH Ha]; constructor; auto.
  intros Hin. rewrite Forall_forall in Ha. specialize (Ha a Hin). lia.
Qed.

End CallOrder.
